(** * Validator (core-crypto/src/validation/index.ts)

    A shallow embedding of the [Validator] class: the registry of
    transaction schemas, the maintenance of the composite "transactions"
    schema inside the schema engine, and the two-pass, exception-tolerant
    policy of [applySchema].

    The schema engine (Ajv), the exception oracle
    ([cryptoManager.LibraryManager.Utils.isException]) and [JSON.stringify]
    are collaborators of the class and enter as parameters of the sections
    below, and so do the tables of [./schemas], [./keywords] and
    [./formats].  Of the engine only its interface is modelled: a store of
    named schemas (add / remove / get) and an opaque check; whether the
    engine compiles a schema it holds and whether it accepts a schema it is
    given depends on the content of the schemas and is a parameter too.  Of
    the methods that only hand their arguments to the default engine,
    [removeSchema] is modelled for a key; [addFormat], [addKeyword],
    [addSchema] and [removeKeyword] are left out. *)

From Stdlib Require Import ZArith Ascii String List Lia.
From stdpp Require Import base option list strings gmap fin_maps.

(** ** JavaScript values used by the class *)

(** The truthiness of a string: only the empty string is falsy. *)
Definition truthy_string (s : string) : bool :=
  match s with
  | EmptyString => false
  | String _ _ => true
  end.

(** The truthiness of an optional string ([undefined] is falsy). *)
Definition truthy (o : option string) : bool :=
  match o with
  | None => false
  | Some s => truthy_string s
  end.

(** Interpolation of an optional string in a template literal. *)
Definition interpolate (o : option string) : string :=
  match o with
  | None => "undefined"
  | Some s => s
  end.

(** ** The pattern [/\.transactions\[([0-9]+)\]/] *)

Module Path.

Definition is_digit (c : ascii) : bool :=
  let n := nat_of_ascii c in (48 <=? n)%nat && (n <=? 57)%nat.

(** Strips [p] from the front of [s]. *)
Fixpoint strip_prefix (p s : string) : option string :=
  match p with
  | EmptyString => Some s
  | String a p' =>
      match s with
      | EmptyString => None
      | String b s' => if Ascii.eqb a b then strip_prefix p' s' else None
      end
  end.

(** The longest run of digits at the front of [s], and what follows. *)
Fixpoint span_digits (s : string) : string * string :=
  match s with
  | EmptyString => (EmptyString, EmptyString)
  | String c s' =>
      if is_digit c
      then let '(ds, r) := span_digits s' in (String c ds, r)
      else (EmptyString, s)
  end.

(** An attempt at the first character of [s]: the capture group on
    success.  [[0-9]+] is greedy, and giving digits back never helps
    since the next character has to be a bracket. *)
Definition match_here (s : string) : option string :=
  match strip_prefix ".transactions[" s with
  | None => None
  | Some r =>
      match span_digits r with
      | (String d ds, String "]" _) => Some (String d ds)
      | _ => None
      end
  end.

(** [dataPath.match(...)]: the leftmost match; [Some g] carries [match[1]],
    [None] is [null]. *)
Fixpoint match_transactions (s : string) : option string :=
  match match_here s with
  | Some g => Some g
  | None =>
      match s with
      | EmptyString => None
      | String _ s' => match_transactions s'
      end
  end.

Fixpoint all_digits (s : string) : bool :=
  match s with
  | EmptyString => true
  | String c s' => is_digit c && all_digits s'
  end.

(** [s] has a segment [.transactions[g]] with [g] one or more digits. *)
Definition segment (s g : string) : Prop :=
  ∃ pre post,
    s = pre +:+ ".transactions[" +:+ g +:+ "]" +:+ post
    ∧ g ≠ EmptyString
    ∧ all_digits g = true.

Definition digit_value (c : ascii) : N := N.of_nat (nat_of_ascii c - 48).

Fixpoint decimal_acc (acc : N) (s : string) : N :=
  match s with
  | EmptyString => acc
  | String c s' => decimal_acc (10 * acc + digit_value c)%N s'
  end.

(** The number a string of digits denotes. *)
Definition decimal (s : string) : N := decimal_acc 0 s.

(** A string of digits is the canonical spelling of a number when it has
    no leading zero; only such a property key is an array index. *)
Definition canonical (s : string) : bool :=
  match s with
  | EmptyString => false
  | String "0" EmptyString => true
  | String "0" _ => false
  | String _ _ => true
  end.

(** [array[key]] for a key made of digits.  A key that is not an array
    index names no property of an array, so the read is [undefined]. *)
Definition array_get {A} (l : list A) (key : string) : option A :=
  if canonical key then l !! N.to_nat (decimal key) else None.

End Path.

(** ** Block data and engine errors *)

(** [ITransactionData]: the class reads the [id]; the [type] tells the
    transactions of a record apart. *)
Record ITransactionData := {
  tx_id : option string;      (* id?: string *)
  tx_type : string;
}.

(** [IBlockData], as far as the class reads it. *)
Record IBlockData := {
  id : option string;                             (* id?: string *)
  height : Z;                                     (* height: number *)
  transactions : option (list ITransactionData);  (* transactions?: ... *)
}.

Section Errors.

(** The type of the offending values the engine reports. *)
Context {Value : Type}.

(** [Ajv.ErrorObject], as far as the class reads it. *)
Record ErrorObject := {
  dataPath : string;
  message : option string;    (* message?: string *)
  data : option Value;        (* data?: any, filled in verbose mode *)
}.

(** [Interfaces.ISchemaValidationResult<T>]. *)
Record ISchemaValidationResult (T : Type) := {
  value : option T;
  error : option string;
  errors : option (list ErrorObject);
}.

End Errors.

Arguments ErrorObject : clear implicits.
Arguments ISchemaValidationResult : clear implicits.
Arguments value {Value T}.
Arguments error {Value T}.
Arguments errors {Value T}.

(** ** Outcomes of a call *)

Inductive Exn :=
| BlockSchemaError (height : Z) (what : string)
| TypeError (what : string)
| EngineError (what : string).

(** A call returns, throws, or is still running when the fuel is spent. *)
Inductive Outcome (A : Type) :=
| Ok (a : A)
| Throw (e : Exn)
| Diverge.

Arguments Ok {A} a.
Arguments Throw {A} e.
Arguments Diverge {A}.

(** Computations over a mutable state [S]: the state is kept when a call
    throws, as the objects of the class are mutated in place. *)
Definition M (S A : Type) : Type := S → Outcome A * S.

Definition ret {S A} (a : A) : M S A := λ s, (Ok a, s).

Definition bind {S A B} (m : M S A) (k : A → M S B) : M S B :=
  λ s, match m s with
       | (Ok a, s') => k a s'
       | (Throw e, s') => (Throw e, s')
       | (Diverge, s') => (Diverge, s')
       end.

Definition throw {S A} (e : Exn) : M S A := λ s, (Throw e, s).
Definition gets {S A} (f : S → A) : M S A := λ s, (Ok (f s), s).
Definition modify {S} (f : S → S) : M S unit := λ s, (Ok tt, f s).

Notation "'let!' x ':=' m 'in' k" := (bind m (λ x, k))
  (at level 10, x pattern, m at level 100, k at level 200, only parsing).
Notation "'run!' m 'in' k" := (bind m (λ _, k))
  (at level 10, m at level 100, k at level 200, only parsing).

(** ** [Map<string, V>] *)

Module JsMap.
Section WithValues.
Context {V : Type}.

(** The entries in insertion order.  A deleted entry leaves an empty
    slot behind, so that an iterator that is under way keeps its place. *)
Definition t := list (option (string * V)).

Definition empty : t := [].

Definition entries (m : t) : list (string * V) := omap (λ e, e) m.
Definition keys (m : t) : list string := fst <$> entries m.
Definition values (m : t) : list V := snd <$> entries m.

Definition has (k : string) (m : t) : bool := bool_decide (k ∈ keys m).

Definition delete_slot (k : string) (e : option (string * V))
  : option (string * V) :=
  match e with
  | Some (k', v) => if decide (k' = k) then None else Some (k', v)
  | None => None
  end.

Definition delete (k : string) (m : t) : t := delete_slot k <$> m.

Definition set_slot (k : string) (v : V) (e : option (string * V))
  : option (string * V) :=
  match e with
  | Some (k', v') => if decide (k' = k) then Some (k, v) else Some (k', v')
  | None => None
  end.

(** A present key keeps its place; a new key goes last. *)
Definition set (k : string) (v : V) (m : t) : t :=
  if has k m then set_slot k v <$> m else m ++ [Some (k, v)].

End WithValues.
Arguments t : clear implicits.
End JsMap.

(** ** Schemas and the engine's store *)

(** [Transactions.schemas.TransactionSchema]: the [$id] and the rest. *)
Record TransactionSchema := {
  schema_id : string;      (* $id *)
  schema_body : string;
}.

(** [{ $ref: ... }]. *)
Record Ref := { ref : string }.

(** The object literal of [updateTransactionArray]. *)
Record ArraySchema := {
  array_id : string;            (* $id *)
  array_type : string;          (* type *)
  additionalItems : bool;
  items_anyOf : list Ref;       (* items: { anyOf: [...] } *)
}.

Inductive Schema :=
| SBase (schema : TransactionSchema)      (* schema *)
| SSigned (schema : TransactionSchema)    (* signedSchema(schema) *)
| SStrict (schema : TransactionSchema)    (* strictSchema(schema) *)
| SArray (a : ArraySchema)
| SOther (id body : string).              (* any other schema *)

(** The [$id] of a schema; the signed and strict variants of a transaction
    schema carry the suffixes the class itself uses to remove them. *)
Definition schema_key (s : Schema) : string :=
  match s with
  | SBase t => schema_id t
  | SSigned t => schema_id t +:+ "Signed"
  | SStrict t => schema_id t +:+ "Strict"
  | SArray a => array_id a
  | SOther i _ => i
  end.

(** [schemaKeyRef: string | boolean | object]. *)
Inductive SchemaKeyRef :=
| KeyRef (key : string)
| BoolRef (b : bool)
| InlineRef (s : Schema).

(** The value of an engine option. *)
Inductive OptVal :=
| OBool (b : bool)
| OSchemas (table : gmap string Schema).

(** An engine instance: its options, the schemas it holds by key, and the
    names of its keywords and formats. *)
Record Ajv := {
  options : gmap string OptVal;
  store : gmap string Schema;
  keywords_of : list string;
  formats_of : list string;
}.

Module Engine.

(** What the engine does with the content of a schema: the message of the
    error it throws when it compiles a schema it holds ([getSchema] compiles
    what it finds; a reference that cannot be resolved is such an error),
    and the message of the error it throws when it is given a schema it
    does not accept ([addSchema] checks a schema against the meta-schema).
    [None]: no error. *)
Record Behaviour := {
  compile_error : Ajv → Schema → option string;
  schema_error : Ajv → Schema → option string;
}.

(** The double quote. *)
Definition quote : string := String "034"%char "".

(** [k] is all that is left of an id from its fragment marker on. *)
Definition marker (k : string) : bool :=
  bool_decide (k = "#") || bool_decide (k = "#/").

(** The key the engine files an id under: one [#] or [#/] at the end of
    the id is dropped ([id.replace(/#\/?$/, "")]). *)
Fixpoint normalizeId (k : string) : string :=
  match k with
  | EmptyString => EmptyString
  | String c k' => if marker k then EmptyString else String c (normalizeId k')
  end.

(** An id without [#]: a plain name, not a reference into a schema. *)
Fixpoint plain (k : string) : bool :=
  match k with
  | EmptyString => true
  | String c k' => negb (Ascii.eqb c "#") && plain k'
  end.

(** [getSchema(key)]: the schema held under the key is compiled, which
    can throw; a key that is not held names nothing. *)
Definition getSchema (b : Behaviour) (k : string) (a : Ajv) : Outcome bool :=
  match store a !! normalizeId k with
  | Some s =>
      match compile_error b a s with
      | Some what => Throw (EngineError what)
      | None => Ok true
      end
  | None => Ok false
  end.

Definition set_store (f : gmap string Schema → gmap string Schema) (a : Ajv)
  : Ajv :=
  {| options := options a; store := f (store a);
     keywords_of := keywords_of a; formats_of := formats_of a |}.

(** [removeSchema(key)]: the entry under the key as it is given goes;
    nothing happens for a key that is not held. *)
Definition removeSchema (k : string) (a : Ajv) : Ajv := set_store (delete k) a.

Definition already_exists (k : string) : Exn :=
  EngineError
    ("schema with key or id " +:+ quote +:+ k +:+ quote +:+ " already exists").

(** [addSchema(schema)]: the schema is filed under its [$id]; a key that
    is taken is an error, and so is a schema the engine does not accept.
    The store stays as it was when the call throws. *)
Definition addSchema (b : Behaviour) (s : Schema) (a : Ajv)
  : Outcome unit * Ajv :=
  let k := normalizeId (schema_key s) in
  match store a !! k with
  | Some _ => (Throw (already_exists k), a)
  | None =>
      match schema_error b a s with
      | Some what => (Throw (EngineError what), a)
      | None => (Ok tt, set_store (insert k s) a)
      end
  end.

End Engine.

(** ** The class *)

(** What a call of [ajv.validate] leaves behind: an exception with its
    [stack] if it has one (the engine's own error for a reference that
    cannot be resolved has none), or the engine's [errors] ([None] is
    [null]). *)
Inductive CheckOutcome (Value : Type) :=
| Thrown (stack : option string)
| Checked (errs : option (list (ErrorObject Value))).

Arguments Thrown {Value} stack.
Arguments Checked {Value} errs.

(** The fields of an instance. *)
Record Validator := {
  ajv : Ajv;
  transactionSchemas : JsMap.t TransactionSchema;
}.

(** What can be observed of a call from outside the class. *)
Inductive Event :=
| EvValidate (schemaKeyRef : SchemaKeyRef)
| EvValidateException (schemaKeyRef : SchemaKeyRef)
| EvIsException (id : option string).

(** An instance together with the events so far. *)
Record World := {
  this : Validator;
  trace : list Event;
}.

(** The engine that [extendTransactionSchema] is given, together with the
    registry of the instance. *)
Record Extending := {
  target : Ajv;
  registry : JsMap.t TransactionSchema;
}.

Definition on_target (f : Ajv → Ajv) : M Extending unit :=
  modify (λ s, {| target := f (target s); registry := registry s |}).

Definition on_registry
    (f : JsMap.t TransactionSchema → JsMap.t TransactionSchema)
  : M Extending unit :=
  modify (λ s, {| target := target s; registry := f (registry s) |}).

Definition getSchema (engine : Engine.Behaviour) (key : string)
  : M Extending bool :=
  λ s, (Engine.getSchema engine key (target s), s).

Definition addSchema (engine : Engine.Behaviour) (schema : Schema)
  : M Extending unit :=
  λ s, let '(o, a) := Engine.addSchema engine schema (target s) in
       (o, {| target := a; registry := registry s |}).

Definition removeSchema (key : string) : M Extending unit :=
  on_target (Engine.removeSchema key).

Definition emit (e : Event) : M World unit :=
  modify (λ w, {| this := this w; trace := trace w ++ [e] |}).

(** *** Engines by reference

    A parameter of type [Ajv.Ajv] is a reference to an engine: to the
    default engine of the instance, or to an engine made by [new Ajv]
    since the method was entered. *)
Inductive AjvRef :=
| ThisAjv               (* this.ajv *)
| MadeAjv (n : nat).    (* the n-th engine made during the call *)

(** A method under way: the world, and the engines made during the call. *)
Record Running := {
  world : World;
  made : list Ajv;
}.

Definition deref (r : AjvRef) (s : Running) : option Ajv :=
  match r with
  | ThisAjv => Some (ajv (this (world s)))
  | MadeAjv n => made s !! n
  end.

(** The engine behind [r] becomes [a] and the registry becomes [m]. *)
Definition assign (r : AjvRef) (a : Ajv) (m : JsMap.t TransactionSchema)
    (s : Running) : Running :=
  {| world :=
       {| this :=
            {| ajv := match r with
                      | ThisAjv => a
                      | MadeAjv _ => ajv (this (world s))
                      end;
               transactionSchemas := m |};
          trace := trace (world s) |};
     made := match r with
             | ThisAjv => made s
             | MadeAjv n => <[n := a]> (made s)
             end |}.

(** [new Ajv(...)]: the engine [a] is made, and the reference to it is the
    result. *)
Definition allocate (a : Ajv) : M Running AjvRef :=
  λ s, (Ok (MadeAjv (length (made s))),
        {| world := world s; made := made s ++ [a] |}).

(** A method that is handed the engine behind [r]: it works on that engine
    and on the registry of the instance. *)
Definition on_engine {A} (r : AjvRef) (m : M Extending A) : M Running A :=
  λ s, match deref r s with
       | Some a =>
           let '(o, e) :=
             m {| target := a;
                  registry := transactionSchemas (this (world s)) |} in
           (o, assign r (target e) (registry e) s)
       | None =>
           (Throw (TypeError "Cannot read property 'getSchema' of undefined"), s)
       end.

(** The engine behind [r], to use it. *)
Definition use (r : AjvRef) : M Running Ajv :=
  λ s, match deref r s with
       | Some a => (Ok a, s)
       | None =>
           (Throw (TypeError "Cannot read property 'validate' of undefined"), s)
       end.

(** A public method: it is entered with no engine made, and the engines it
    made are out of reach when it is left. *)
Definition method {A} (m : M Running A) : M World A :=
  λ w, let '(o, s) := m {| world := w; made := [] |} in (o, world s).

(** [removeSchema(schemaKeyRef)] of the class, for a key: the call is
    handed on to the default engine. *)
Module Public.

Definition removeSchema (key : string) : M World unit :=
  method (on_engine ThisAjv (removeSchema key)).

End Public.

(** The branch of the composite schema for a transaction type. *)
Definition signed_ref (key : string) : Ref := {| ref := key +:+ "Signed" |}.

Definition composite (keys : list string) : ArraySchema :=
  {| array_id := "transactions";
     array_type := "array";
     additionalItems := false;
     items_anyOf := signed_ref <$> keys |}.

Section Validator.

(** [Value] is the type of the offending values in the engine's errors,
    [T] the type of the data under validation. *)
Context {Value T : Type}.

(** The table of [./schemas], the keyword names of [ajv-keywords] and of
    [./keywords], and the format names of [./formats]. *)
Variable schemas : gmap string Schema.
Variables ajvKeywords keywords formats : list string.

(** What the engine makes of the content of the schemas. *)
Variable engine : Engine.Behaviour.

(** [ajv.validate(schemaKeyRef, data)]: the data as the engine leaves it
    (with [removeAdditional] the engine edits it in place) and the outcome. *)
Variable check : Ajv → SchemaKeyRef → T → T * CheckOutcome Value.

(** [ajv.errorsText()] for the errors of the last check. *)
Variable errorsText : list (ErrorObject Value) → string.

Definition default_options : gmap string OptVal :=
  {[ "$data" := OBool true;
     "schemas" := OSchemas schemas;
     "removeAdditional" := OBool true;
     "extendRefs" := OBool true ]}.

(** The schemas an engine starts with: those of its [schemas] option. *)
Definition initial_store (opts : gmap string OptVal) : gmap string Schema :=
  match opts !! "schemas" with
  | Some (OSchemas table) => table
  | _ => ∅
  end.

Definition instantiateAjv (opts : gmap string OptVal) : Ajv :=
  let merged := opts ∪ default_options in
  {| options := merged;
     store := initial_store merged;
     keywords_of := ajvKeywords ++ keywords;
     formats_of := formats |}.

Definition make (opts : gmap string OptVal) : Validator :=
  {| ajv := instantiateAjv opts; transactionSchemas := JsMap.empty |}.

(** [error.stack] is [undefined] for a thrown value without a stack. *)
Definition validateSchema (a : Ajv) (schemaKeyRef : SchemaKeyRef) (d : T)
  : T * ISchemaValidationResult Value T :=
  match check a schemaKeyRef d with
  | (d', Checked errs) =>
      (d', {| value := Some d'; error := errorsText <$> errs; errors := errs |})
  | (d', Thrown stack) =>
      (d', {| value := None; error := stack; errors := Some [] |})
  end.

Definition updateTransactionArray : M Extending unit :=
  run! removeSchema "block" in
  run! removeSchema "transactions" in
  let! ks := gets (λ s, JsMap.keys (registry s)) in
  run! addSchema engine (SArray (composite ks)) in
  match schemas !! "block" with
  | Some block => addSchema engine block
  | None => throw (TypeError "Cannot read property '$id' of undefined")
  end.

(** [remove] is [false] for a call that leaves the parameter out. *)
Definition extendTransactionSchema (schema : TransactionSchema) (remove : bool)
  : M Extending unit :=
  let! found := getSchema engine (schema_id schema) in
  let remove := if found then true else remove in
  run! (if remove
        then
          run! on_registry (JsMap.delete (schema_id schema)) in
          run! removeSchema (schema_id schema) in
          run! removeSchema (schema_id schema +:+ "Signed") in
          removeSchema (schema_id schema +:+ "Strict")
        else ret tt) in
  run! on_registry (JsMap.set (schema_id schema) schema) in
  run! addSchema engine (SBase schema) in
  run! addSchema engine (SSigned schema) in
  run! addSchema engine (SStrict schema) in
  updateTransactionArray.

(** [for (const schema of this.transactionSchemas.values())]: the
    iterator stands at slot [i] of the registry, which the body edits
    while the loop runs. *)
Fixpoint reapply (fuel i : nat) : M Extending unit :=
  match fuel with
  | O => λ s, (Diverge, s)
  | S fuel' =>
      λ s, match registry s !! i with
           | None => ret tt s
           | Some None => reapply fuel' (S i) s
           | Some (Some (_, schema)) =>
               (run! extendTransactionSchema schema false in
                reapply fuel' (S i)) s
           end
  end.

Definition tolerant_options : gmap string OptVal :=
  {[ "allErrors" := OBool true; "verbose" := OBool true ]}.

(** The engine of the tolerant pass, as the loop leaves it. *)
Definition tolerant_engine (fuel : nat) (v : Validator)
  : Outcome unit * Extending :=
  reapply fuel 0 {| target := instantiateAjv tolerant_options;
                    registry := transactionSchemas v |}.

Definition validate (schemaKeyRef : SchemaKeyRef) (d : T)
  : M World (T * ISchemaValidationResult Value T) :=
  run! emit (EvValidate schemaKeyRef) in
  let! a := gets (λ w, ajv (this w)) in
  ret (validateSchema a schemaKeyRef d).

(** The loop hands the engine it has made to [extendTransactionSchema]
    for every schema of the registry. *)
Definition validateException (fuel : nat) (schemaKeyRef : SchemaKeyRef)
    (d : T)
  : M World (T * ISchemaValidationResult Value T) :=
  run! emit (EvValidateException schemaKeyRef) in
  method
    (let! ajv := allocate (instantiateAjv tolerant_options) in
     run! on_engine ajv (reapply fuel 0) in
     let! a := use ajv in
     ret (validateSchema a schemaKeyRef d)).

Definition extendTransaction (schema : TransactionSchema) (remove : bool)
  : M World unit :=
  method (on_engine ThisAjv (extendTransactionSchema schema remove)).

End Validator.

(** ** The policy of [applySchema] *)

Section Policy.

Context {Value : Type}.

Variable schemas : gmap string Schema.
Variables ajvKeywords keywords formats : list string.
Variable engine : Engine.Behaviour.
Variable check : Ajv → SchemaKeyRef → IBlockData → IBlockData * CheckOutcome Value.
Variable errorsText : list (ErrorObject Value) → string.

(** [cryptoManager.LibraryManager.Utils.isException]. *)
Variable isException : option string → bool.

Variable JSON_stringify : Value → string.

Definition askException (i : option string) : M World bool :=
  run! emit (EvIsException i) in
  ret (isException i).

(** The text of the failure for [err]. *)
Definition what (err : ErrorObject Value) : string :=
  "Invalid data"
  +:+ (if truthy_string (dataPath err) then " at " +:+ dataPath err else "")
  +:+ ": " +:+ interpolate (message err)
  +:+ ": " +:+ interpolate (JSON_stringify <$> data err).

(** The body of the loop of [applySchema] up to the test of [fatal]. *)
Definition classify (d : IBlockData) (err : ErrorObject Value) : M World bool :=
  match Path.match_transactions (dataPath err) with
  | None =>
      let! exempt := askException (id d) in
      ret (negb exempt)
  | Some txIndex =>
      match transactions d with
      | Some txs =>
          match Path.array_get txs txIndex with
          | None =>
              throw (TypeError "Cannot read property 'id' of undefined")
          | Some tx =>
              match tx_id tx with
              | None => ret true
              | Some i =>
                  let! exempt := askException (Some i) in
                  ret (negb exempt)
              end
          end
      | None => ret false
      end
  end.

Fixpoint classify_all (d : IBlockData) (errs : list (ErrorObject Value))
  : M World unit :=
  match errs with
  | [] => ret tt
  | err :: rest =>
      let! fatal := classify d err in
      if fatal
      then throw (BlockSchemaError (height d) (what err))
      else classify_all d rest
  end.

Definition applySchema (fuel : nat) (d : IBlockData)
  : M World (option IBlockData) :=
  let! (d, result) := validate check errorsText (KeyRef "block") d in
  if negb (truthy (error result))
  then ret (value result)
  else
    let! (d, result) :=
      validateException schemas ajvKeywords keywords formats engine check
        errorsText fuel (KeyRef "block") d in
    match errors result with
    | None => ret (value result)
    | Some errs =>
        run! classify_all d errs in
        ret (value result)
    end.

End Policy.

(** The engine holds a schema under the key it files [k] under. *)
Definition known (a : Ajv) (k : string) : Prop :=
  is_Some (store a !! Engine.normalizeId k).

(** Whether [extendTransactionSchema] removes before it adds, when its
    [getSchema] returns. *)
Definition removes (remove : bool) (k : string) (a : Ajv) : bool :=
  match store a !! Engine.normalizeId k with
  | Some _ => true
  | None => remove
  end.

(** The store once the variants of [k] are removed, when [rm] is set. *)
Definition cleared (rm : bool) (k : string) (st : gmap string Schema)
  : gmap string Schema :=
  if rm then delete (k +:+ "Strict") (delete (k +:+ "Signed") (delete k st))
  else st.

(** The store once the variants of [t] are added. *)
Definition extended (t : TransactionSchema) (st : gmap string Schema)
  : gmap string Schema :=
  <[schema_id t +:+ "Strict" := SStrict t]>
    (<[schema_id t +:+ "Signed" := SSigned t]>
       (<[Engine.normalizeId (schema_id t) := SBase t]> st)).

(** The store once the composite schema for [ks] and the block schema are
    put back. *)
Definition rebuilt (block : Schema) (ks : list string)
    (st : gmap string Schema) : gmap string Schema :=
  <[Engine.normalizeId (schema_key block) := block]>
    (<["transactions" := SArray (composite ks)]>
       (delete "transactions" (delete "block" st))).

(** The state of [extendTransactionSchema] when it starts to add: the
    variants and the entry of the type are removed if need be, and the
    entry is set. *)
Definition prepared (t : TransactionSchema) (remove : bool) (s : Extending)
  : Extending :=
  let rm := removes remove (schema_id t) (target s) in
  {| target := Engine.set_store (cleared rm (schema_id t)) (target s);
     registry := JsMap.set (schema_id t) t
                   (if rm then JsMap.delete (schema_id t) (registry s)
                    else registry s) |}.

(** The state [extendTransaction] hands to [extendTransactionSchema]. *)
Definition extending (v : Validator) : Extending :=
  {| target := ajv v; registry := transactionSchemas v |}.

(** What [extendTransaction] makes of the outcome of
    [extendTransactionSchema]. *)
Definition handed_back (w : World) (r : Outcome unit * Extending)
  : Outcome unit * World :=
  (r.1, {| this := {| ajv := target r.2; transactionSchemas := registry r.2 |};
           trace := trace w |}).

#[global] Instance Ref_eq_dec : EqDecision Ref.
Proof. solve_decision. Defined.

(** The number of branches of a composite schema that refer to the signed
    variant of [k]. *)
Definition branches (k : string) (a : ArraySchema) : nat :=
  length (filter (λ r, r = signed_ref k) (items_anyOf a)).

(** The keys under which the class adds and removes a transaction type. *)
Definition variant_keys (k : string) : list string :=
  [k; k +:+ "Signed"; k +:+ "Strict"].

(** The keys an engine needs for the types of a registry, and the two keys
    of [updateTransactionArray]. *)
Definition all_keys (m : JsMap.t TransactionSchema) : list string :=
  (JsMap.keys m ≫= variant_keys) ++ ["block"; "transactions"].

(** A registry that can be applied to a new engine as it is: every entry is
    filed under the [$id] of its schema, the ids are plain names, no two of
    the keys the engine needs are the same, and none of them is the key of a
    schema of the table. *)
Definition separate (table : gmap string Schema)
    (m : JsMap.t TransactionSchema) : Prop :=
  Forall (λ e, schema_id e.2 = e.1) (JsMap.entries m)
  ∧ NoDup (all_keys m)
  ∧ Forall (λ x, table !! x = None) (JsMap.keys m ≫= variant_keys)
  ∧ Forall (λ k, Engine.plain k = true) (JsMap.keys m).

(** The engine holds the three variants of [t], the type with id [k]. *)
Definition applied (k : string) (t : TransactionSchema) (a : Ajv) : Prop :=
  store a !! Engine.normalizeId k = Some (SBase t)
  ∧ store a !! (k +:+ "Signed") = Some (SSigned t)
  ∧ store a !! (k +:+ "Strict") = Some (SStrict t).

(** The instance and the events once both passes of [applySchema] have
    run, [s] being what the loop of the tolerant pass left. *)
Definition after_passes (w : World) (s : Extending) : World :=
  {| this := {| ajv := ajv (this w); transactionSchemas := registry s |};
     trace := trace w ++ [EvValidate (KeyRef "block");
                          EvValidateException (KeyRef "block")] |}.

(** The world with one more event. *)
Definition logged (w : World) (e : Event) : World :=
  {| this := this w; trace := trace w ++ [e] |}.

(** ** A scenario

    The registry holds the type "transfer"; the record is
    [{height: 5, transactions: [{type: "transfer", id: "bad"}]}]. *)

Module Scenario.

Definition schemas : gmap string Schema :=
  {[ "block" := SOther "block" "blockHeader & transactions";
     "hex" := SOther "hex" "string" ]}.

Definition ajvKeywords : list string := ["range"].
Definition keywords : list string := ["bignumber"].
Definition formats : list string := ["vendorField"].

(** The content of a schema that no engine accepts: [type] has to be a
    name or a list of names. *)
Definition malformed_body : string := "type: 7".

(** An engine that compiles every schema, and accepts every schema but the
    variants of a transaction schema with that content. *)
Definition engine : Engine.Behaviour :=
  {| Engine.compile_error := λ _ _, None;
     Engine.schema_error :=
       λ _ s, match s with
              | SBase t | SSigned t | SStrict t =>
                  if bool_decide (schema_body t = malformed_body)
                  then Some "schema is invalid: data.type should be equal to one of the allowed values"
                  else None
              | _ => None
              end |}.

(** An engine that answers [strict] unless it runs in verbose mode, where
    it answers [tolerant]; the data is left as it is. *)
Definition check (strict tolerant : CheckOutcome string)
    (a : Ajv) (_ : SchemaKeyRef) (d : IBlockData)
  : IBlockData * CheckOutcome string :=
  (d, match options a !! "verbose" with
      | Some (OBool true) => tolerant
      | _ => strict
      end).

Definition errorText (e : ErrorObject string) : string :=
  "data" +:+ dataPath e +:+ " " +:+ interpolate (message e).

Definition errorsText (errs : list (ErrorObject string)) : string :=
  String.concat ", " (errorText <$> errs).

Definition JSON_stringify (v : string) : string := v.

Definition transfer : TransactionSchema :=
  {| schema_id := "transfer"; schema_body := "amount >= 1" |}.

Definition transfer' : TransactionSchema :=
  {| schema_id := "transfer"; schema_body := "amount >= 0" |}.

Definition vote : TransactionSchema :=
  {| schema_id := "vote"; schema_body := "votes" |}.

Definition fresh : World :=
  {| this := make schemas ajvKeywords keywords formats ∅; trace := [] |}.

(** [extendTransaction(t)] and [extendTransaction(t, true)]. *)
Definition register (t : TransactionSchema) (remove : bool) (w : World)
  : Outcome unit * World :=
  extendTransaction schemas engine t remove w.

(** The instance after [extendTransaction(transfer)]. *)
Definition registered : World := (register transfer false fresh).2.

Definition bad : ITransactionData :=
  {| tx_id := Some "bad"; tx_type := "transfer" |}.

Definition anonymous : ITransactionData :=
  {| tx_id := None; tx_type := "transfer" |}.

Definition record (txs : option (list ITransactionData)) : IBlockData :=
  {| id := Some "b5"; height := 5; transactions := txs |}.

Definition at_transaction : ErrorObject string :=
  {| dataPath := ".transactions[0].amount";
     message := Some "should be >= 1";
     data := Some "-1" |}.

Definition at_block : ErrorObject string :=
  {| dataPath := ".numberOfTransactions";
     message := Some "should be integer";
     data := Some "1.5" |}.

(** The oracle that exempts exactly the identifiers in [ids]. *)
Definition exempt (ids : list string) (i : option string) : bool :=
  match i with
  | None => false
  | Some s => bool_decide (s ∈ ids)
  end.

(** [applySchema] on the instance with "transfer" registered, for an
    engine that answers [strict] and [tolerant] and an oracle that exempts
    [ids]. *)
Definition run (strict tolerant : CheckOutcome string) (ids : list string)
    (d : IBlockData) : Outcome (option IBlockData) * World :=
  applySchema schemas ajvKeywords keywords formats engine
    (check strict tolerant) errorsText (exempt ids) JSON_stringify 2 d
    registered.

(** What the loop of the tolerant pass leaves on that instance. *)
Definition tolerant : Extending :=
  (tolerant_engine schemas ajvKeywords keywords formats engine 2
     (this registered)).2.

End Scenario.

(** ** The body of the loop as a function

    What the body of the loop of [applySchema] decides for one error, and
    what it asks the oracle, written without the state. *)

Inductive Verdict :=
| Tolerated      (* fatal stays false *)
| Fatal          (* fatal is set *)
| Crash.         (* the [id] of a missing transaction is read *)

Section Verdicts.

Context {Value : Type}.
Variable isException : option string → bool.

Definition verdict (d : IBlockData) (err : ErrorObject Value) : Verdict :=
  match Path.match_transactions (dataPath err) with
  | None => if isException (id d) then Tolerated else Fatal
  | Some txIndex =>
      match transactions d with
      | None => Tolerated
      | Some txs =>
          match Path.array_get txs txIndex with
          | None => Crash
          | Some tx =>
              match tx_id tx with
              | None => Fatal
              | Some i => if isException (Some i) then Tolerated else Fatal
              end
          end
      end
  end.

(** The identifier the oracle is asked about for [err], if any. *)
Definition asked (d : IBlockData) (err : ErrorObject Value) : list Event :=
  match Path.match_transactions (dataPath err) with
  | None => [EvIsException (id d)]
  | Some txIndex =>
      match transactions d with
      | None => []
      | Some txs =>
          match Path.array_get txs txIndex with
          | None => []
          | Some tx =>
              match tx_id tx with
              | None => []
              | Some i => [EvIsException (Some i)]
              end
          end
      end
  end.

End Verdicts.

(** The world with more events. *)
Definition recorded (w : World) (evs : list Event) : World :=
  {| this := this w; trace := trace w ++ evs |}.

(** The registry as the class keeps it: every entry is filed under the
    [$id] of its schema, and no key occurs twice. *)
Definition well_keyed (m : JsMap.t TransactionSchema) : Prop :=
  Forall (λ e, schema_id e.2 = e.1) (JsMap.entries m)
  ∧ NoDup (JsMap.keys m).

(** [s'] differs from [s] in the engine's store at the keys [ks] at most. *)
Definition confined (ks : list string) (s s' : Extending) : Prop :=
  options (target s') = options (target s)
  ∧ keywords_of (target s') = keywords_of (target s)
  ∧ formats_of (target s') = formats_of (target s)
  ∧ ∀ x, x ∉ ks → store (target s') !! x = store (target s) !! x.

(** [s'] has the options, keywords and formats of [s]. *)
Definition same_setup (s s' : Extending) : Prop :=
  options (target s') = options (target s)
  ∧ keywords_of (target s') = keywords_of (target s)
  ∧ formats_of (target s') = formats_of (target s).

(** The registry has a live entry at slot [i] or later whose key the
    engine holds. *)
Definition pending_known (i : nat) (s : Extending) : Prop :=
  ∃ j k t, i ≤ j ∧ registry s !! j = Some (Some (k, t))
           ∧ known (target s) k.

(** [R] relates the state before a computation to the state after it,
    whatever the outcome. *)
Definition always {S A} (R : S → S → Prop) (m : M S A) : Prop :=
  ∀ s, R s (m s).2.

(** ** Instances at the edges *)

Module Edge.

Import Scenario.

(** A transaction type named like a schema of the table. *)
Definition hex : TransactionSchema :=
  {| schema_id := "hex"; schema_body := "amount >= 1" |}.

(** The instance after [extendTransaction(hex)]. *)
Definition clashing : World := (register hex false fresh).2.

(** A transaction type whose schema the engine does not accept. *)
Definition malformed : TransactionSchema :=
  {| schema_id := "malformed"; schema_body := malformed_body |}.

(** An engine like that of the scenario, except that it cannot compile the
    base schema of a transaction type (a reference in it does not resolve). *)
Definition unresolved : Engine.Behaviour :=
  {| Engine.compile_error :=
       λ _ s, match s with
              | SBase _ => Some "can't resolve reference base from id #"
              | _ => None
              end;
     Engine.schema_error := Engine.schema_error engine |}.

(** A transaction type named like the signed variant of "vote". *)
Definition voteSigned : TransactionSchema :=
  {| schema_id := "voteSigned"; schema_body := "votes, signature" |}.

(** The instance after [extendTransaction(voteSigned)] and
    [extendTransaction(vote)]: the second call throws. *)
Definition stale : World :=
  (register vote false (register voteSigned false fresh).2).2.

(** The instance with "transfer" registered, once the base schema of the
    type has been removed from the default engine ([removeSchema] with the
    id). *)
Definition unbased : World := (Public.removeSchema "transfer" registered).2.

(** The same, with the signed variant removed as well. *)
Definition unsigned : World :=
  (Public.removeSchema "transferSigned" unbased).2.


End Edge.

(** * Properties *)

(** ** Keys *)

Section KeyFacts.

Lemma append_cons (c : ascii) (s t : string) :
  String c s +:+ t = String c (s +:+ t).
Proof. reflexivity. Qed.

Lemma append_nil (t : string) : "" +:+ t = t.
Proof. reflexivity. Qed.

Lemma length_append (s t : string) :
  String.length (s +:+ t) = String.length s + String.length t.
Proof.
  induction s as [|c s IH]; [done|].
  rewrite append_cons. cbn [String.length]. by rewrite IH.
Qed.

Lemma append_ne_self (s t : string) : t ≠ "" → s +:+ t ≠ s.
Proof.
  intros Ht Heq. apply (f_equal String.length) in Heq.
  rewrite length_append in Heq. destruct t; [done | cbn in Heq; lia].
Qed.

(** A suffix can be cancelled. *)
Lemma append_inj_suffix (s1 s2 t : string) : s1 +:+ t = s2 +:+ t → s1 = s2.
Proof.
  revert s2. induction s1 as [|c s1 IH]; intros [|c' s2] Heq;
    rewrite ?append_cons, ?append_nil in Heq.
  - done.
  - apply (f_equal String.length) in Heq. cbn in Heq.
    rewrite length_append in Heq. lia.
  - apply (f_equal String.length) in Heq. cbn in Heq.
    rewrite length_append in Heq. lia.
  - injection Heq as -> Heq. f_equal. by apply IH.
Qed.

Lemma signed_ref_inj (k k' : string) : signed_ref k = signed_ref k' → k = k'.
Proof. unfold signed_ref. intros [=Heq]. by apply append_inj_suffix in Heq. Qed.

Lemma signed_ne_base (k : string) : k +:+ "Signed" ≠ k.
Proof. by apply append_ne_self. Qed.

Lemma strict_ne_base (k : string) : k +:+ "Strict" ≠ k.
Proof. by apply append_ne_self. Qed.

Lemma signed_ne_strict (k : string) : k +:+ "Signed" ≠ k +:+ "Strict".
Proof. intros Heq. by apply (inj (String.append k)) in Heq. Qed.

(** The last character of a string. *)
Lemma last_append (s t : string) (c : ascii) :
  String.get (String.length (s +:+ String c t) - 1) (s +:+ String c t)
  = String.get (String.length (String c t) - 1) (String c t).
Proof.
  induction s as [|a s IH]; [done|].
  rewrite append_cons. cbn [String.length]. rewrite length_append in *.
  cbn [String.length] in *.
  replace (S (String.length s + S (String.length t)) - 1)
    with (S (String.length s + S (String.length t) - 1)) by lia.
  cbn [String.get]. exact IH.
Qed.

Lemma signed_not_reserved (k : string) :
  k +:+ "Signed" ≠ "block" ∧ k +:+ "Signed" ≠ "transactions".
Proof.
  pose proof (last_append k "igned" "S") as Hl.
  split; intros Heq; rewrite Heq in Hl; by vm_compute in Hl.
Qed.

Lemma strict_not_reserved (k : string) :
  k +:+ "Strict" ≠ "block" ∧ k +:+ "Strict" ≠ "transactions".
Proof.
  pose proof (last_append k "trict" "S") as Hl.
  split; intros Heq; rewrite Heq in Hl; by vm_compute in Hl.
Qed.

(** *** The keys of the engine *)

Lemma marker_long (k : string) : 2 < String.length k → Engine.marker k = false.
Proof.
  destruct k as [|a [|b [|c k]]]; cbn [String.length]; try lia. intros _.
  unfold Engine.marker. by rewrite !bool_decide_eq_false_2.
Qed.

Lemma normalizeId_suffix (k s : string) :
  2 < String.length s → Engine.normalizeId s = s →
  Engine.normalizeId (k +:+ s) = k +:+ s.
Proof.
  intros Hlen Hs. induction k as [|a k IH]; [by rewrite append_nil|].
  rewrite append_cons. cbn [Engine.normalizeId].
  rewrite marker_long, IH; [done|].
  cbn [String.length]. rewrite length_append. lia.
Qed.

Lemma normalizeId_signed (k : string) :
  Engine.normalizeId (k +:+ "Signed") = k +:+ "Signed".
Proof. apply normalizeId_suffix; [cbn; lia|reflexivity]. Qed.

Lemma normalizeId_strict (k : string) :
  Engine.normalizeId (k +:+ "Strict") = k +:+ "Strict".
Proof. apply normalizeId_suffix; [cbn; lia|reflexivity]. Qed.

Lemma length_normalizeId (k : string) :
  String.length (Engine.normalizeId k) ≤ String.length k.
Proof.
  induction k as [|a k IH]; [done|]. cbn [Engine.normalizeId].
  destruct (Engine.marker _); cbn [String.length]; lia.
Qed.

(** The key of the base variant is neither of the other two. *)
Lemma normalizeId_ne_signed (k : string) :
  Engine.normalizeId k ≠ k +:+ "Signed".
Proof.
  intros Heq. pose proof (length_normalizeId k) as Hlen.
  rewrite Heq, length_append in Hlen. cbn in Hlen. lia.
Qed.

Lemma normalizeId_ne_strict (k : string) :
  Engine.normalizeId k ≠ k +:+ "Strict".
Proof.
  intros Heq. pose proof (length_normalizeId k) as Hlen.
  rewrite Heq, length_append in Hlen. cbn in Hlen. lia.
Qed.

Lemma signed_ne_normalizeId (k : string) :
  k +:+ "Signed" ≠ Engine.normalizeId k.
Proof. intros Heq. by apply (normalizeId_ne_signed k). Qed.

Lemma strict_ne_normalizeId (k : string) :
  k +:+ "Strict" ≠ Engine.normalizeId k.
Proof. intros Heq. by apply (normalizeId_ne_strict k). Qed.

(** The engine files a plain name under the name itself. *)
Lemma normalizeId_plain (k : string) :
  Engine.plain k = true → Engine.normalizeId k = k.
Proof.
  induction k as [|a k IH]; [done|]. cbn [Engine.plain Engine.normalizeId].
  intros [Ha Hk]%andb_true_iff. rewrite (IH Hk).
  assert (Engine.marker (String a k) = false) as ->; [|done].
  unfold Engine.marker. apply orb_false_iff.
  split; apply bool_decide_eq_false_2; intros [= -> _]; done.
Qed.

Lemma normalizeId_block : Engine.normalizeId "block" = "block".
Proof. reflexivity. Qed.

Lemma normalizeId_transactions :
  Engine.normalizeId "transactions" = "transactions".
Proof. reflexivity. Qed.

End KeyFacts.

(** ** The pattern of the paths *)

Section PathFacts.

Lemma strip_prefix_Some (p s r : string) :
  Path.strip_prefix p s = Some r ↔ s = p +:+ r.
Proof.
  revert s. induction p as [|a p IH]; intros s; cbn [Path.strip_prefix].
  - rewrite append_nil. split; congruence.
  - rewrite append_cons. destruct s as [|b s]; [done|].
    destruct (Ascii.eqb_spec a b) as [->|Hne].
    + rewrite IH. split; congruence.
    + split; congruence.
Qed.

Lemma span_digits_spec (s ds r : string) :
  Path.span_digits s = (ds, r) →
  s = ds +:+ r ∧ Path.all_digits ds = true.
Proof.
  revert ds r. induction s as [|c s IH]; intros ds r; cbn [Path.span_digits].
  - by intros [= <- <-].
  - destruct (Path.is_digit c) eqn:Hc.
    + destruct (Path.span_digits s) as [ds' r'].
      intros [= <- <-]. destruct (IH ds' r' eq_refl) as [-> Hd].
      rewrite append_cons. cbn [Path.all_digits]. by rewrite Hc, Hd.
    + by intros [= <- <-].
Qed.

Lemma span_digits_bracket (g post : string) :
  Path.all_digits g = true →
  Path.span_digits (g +:+ String "]" post) = (g, String "]" post).
Proof.
  induction g as [|c g IH]; [done|].
  cbn [Path.all_digits]. intros [Hc Hg]%andb_true_iff.
  rewrite append_cons. cbn [Path.span_digits]. by rewrite Hc, IH.
Qed.

Lemma match_here_Some (s g : string) :
  Path.match_here s = Some g ↔
  ∃ post, s = ".transactions[" +:+ g +:+ "]" +:+ post
          ∧ g ≠ "" ∧ Path.all_digits g = true.
Proof.
  unfold Path.match_here. split.
  - destruct (Path.strip_prefix _ s) as [r|] eqn:Hr; [|done].
    apply strip_prefix_Some in Hr as ->.
    destruct (Path.span_digits r) as [ds r'] eqn:Hs.
    apply span_digits_spec in Hs as [-> Hd].
    destruct ds as [|d ds]; [done|].
    destruct r' as [|c post]; [done|].
    destruct (decide (c = "]"%char)) as [->|Hne].
    + intros [= <-]. by exists post.
    + intros H. exfalso.
      destruct c as [[] [] [] [] [] [] [] []]; try done.
  - intros (post & -> & Hne & Hd).
    assert (Hp : Path.strip_prefix ".transactions["
                   (".transactions[" +:+ g +:+ "]" +:+ post)
                 = Some (g +:+ "]" +:+ post)) by by apply strip_prefix_Some.
    rewrite Hp.
    change ("]" +:+ post) with (String "]" post).
    rewrite span_digits_bracket by done. by destruct g.
Qed.

(** A match is a segment of the path. *)
Lemma match_transactions_Some (s g : string) :
  Path.match_transactions s = Some g → Path.segment s g.
Proof.
  induction s as [|c s IH]; cbn [Path.match_transactions].
  - destruct (Path.match_here "") as [g'|] eqn:Hh; [|done].
    intros [= ->]. apply match_here_Some in Hh as (post & Hs & Hne & Hd).
    by exists "", post.
  - destruct (Path.match_here (String c s)) as [g'|] eqn:Hh.
    + intros [= ->]. apply match_here_Some in Hh as (post & Hs & Hne & Hd).
      by exists "", post.
    + intros (pre & post & -> & Hne & Hd)%IH.
      by exists (String c pre), post.
Qed.

(** No match: the path has no such segment. *)
Lemma match_transactions_None (s : string) :
  Path.match_transactions s = None ↔ ∀ g, ¬ Path.segment s g.
Proof.
  split.
  - intros Hnone g (pre & post & -> & Hne & Hd). revert Hnone.
    induction pre as [|c pre IH].
    + rewrite append_nil.
      assert (Hh : Path.match_here (".transactions[" +:+ g +:+ "]" +:+ post)
                   = Some g) by (apply match_here_Some; by exists post).
      change (".transactions[" +:+ g +:+ "]" +:+ post)
        with (String "." ("transactions[" +:+ g +:+ "]" +:+ post)) in *.
      cbn [Path.match_transactions]. by rewrite Hh.
    + rewrite append_cons. cbn [Path.match_transactions].
      destruct (Path.match_here _); [done|]. apply IH.
  - intros Hno. destruct (Path.match_transactions s) as [g|] eqn:Hm; [|done].
    by apply match_transactions_Some, Hno in Hm.
Qed.

End PathFacts.

(** ** The registry as a map *)

Section JsMapFacts.

Context {V : Type}.
Implicit Types (m : JsMap.t V) (k : string) (v : V).

Lemma keys_nil : JsMap.keys (V:=V) [] = [].
Proof. reflexivity. Qed.

Lemma keys_cons_Some k v m :
  JsMap.keys (Some (k, v) :: m) = k :: JsMap.keys m.
Proof. reflexivity. Qed.

Lemma keys_cons_None m : JsMap.keys (None :: m) = JsMap.keys m.
Proof. reflexivity. Qed.

Lemma keys_app m1 m2 : JsMap.keys (m1 ++ m2) = JsMap.keys m1 ++ JsMap.keys m2.
Proof. unfold JsMap.keys, JsMap.entries. by rewrite omap_app, fmap_app. Qed.

Lemma keys_delete k m :
  JsMap.keys (JsMap.delete k m) = filter (λ k', k' ≠ k) (JsMap.keys m).
Proof.
  induction m as [|[[k' v]|] m IH]; [done| |].
  - unfold JsMap.delete in *. cbn [fmap list_fmap JsMap.delete_slot].
    rewrite keys_cons_Some, filter_cons.
    destruct (decide (k' = k)) as [->|Hne].
    + rewrite keys_cons_None, decide_False by (intros ?; done). apply IH.
    + rewrite keys_cons_Some, decide_True by done. f_equal. apply IH.
  - unfold JsMap.delete in *. cbn [fmap list_fmap JsMap.delete_slot].
    rewrite !keys_cons_None. apply IH.
Qed.

Lemma keys_set_slot k v m :
  JsMap.keys (JsMap.set_slot k v <$> m) = JsMap.keys m.
Proof.
  induction m as [|[[k' v']|] m IH]; [done| |]; cbn [fmap list_fmap] in *.
  - cbn [JsMap.set_slot]. destruct (decide (k' = k)) as [->|Hne];
      rewrite !keys_cons_Some; f_equal; apply IH.
  - cbn [JsMap.set_slot]. rewrite !keys_cons_None. apply IH.
Qed.

Lemma keys_set k v m :
  JsMap.keys (JsMap.set k v m)
  = if bool_decide (k ∈ JsMap.keys m) then JsMap.keys m else JsMap.keys m ++ [k].
Proof.
  unfold JsMap.set, JsMap.has. destruct (bool_decide (k ∈ JsMap.keys m)).
  - apply keys_set_slot.
  - by rewrite keys_app.
Qed.

(** Removing a key and then setting it puts it last. *)
Lemma keys_set_delete k v m :
  JsMap.keys (JsMap.set k v (JsMap.delete k m))
  = filter (λ k', k' ≠ k) (JsMap.keys m) ++ [k].
Proof.
  rewrite keys_set, keys_delete, bool_decide_eq_false_2; [done|].
  rewrite list_elem_of_filter. intros [Hne _]. by apply Hne.
Qed.



End JsMapFacts.

(** ** The two passes *)

Section ValidateFacts.

Context {Value T : Type}.
Variable schemas : gmap string Schema.
Variables ajvKeywords keywords formats : list string.
Variable engine : Engine.Behaviour.
Variable check : Ajv → SchemaKeyRef → T → T * CheckOutcome Value.
Variable errorsText : list (ErrorObject Value) → string.

Lemma validate_unfold (schemaKeyRef : SchemaKeyRef) (d : T) (w : World) :
  validate check errorsText schemaKeyRef d w
  = (Ok (validateSchema check errorsText (ajv (this w)) schemaKeyRef d),
     {| this := this w; trace := trace w ++ [EvValidate schemaKeyRef] |}).
Proof. reflexivity. Qed.

(** C9, on the code: a check that throws is reported as an outcome without
    value and with an empty list of errors; the summary is the [stack] of
    what was thrown, so a thrown value with a stack gives the failure text,
    and a thrown value without one gives no summary at all.  A check
    without errors hands the input back (as the engine left it), with
    neither summary nor errors. *)
Theorem validate_outcome (schemaKeyRef : SchemaKeyRef) (d d' : T) (w : World) :
  (∀ text,
     check (ajv (this w)) schemaKeyRef d = (d', Thrown (Some text)) →
     (validate check errorsText schemaKeyRef d w).1
     = Ok (d', {| value := None; error := Some text; errors := Some [] |}))
  ∧ (check (ajv (this w)) schemaKeyRef d = (d', Thrown None) →
     (validate check errorsText schemaKeyRef d w).1
     = Ok (d', {| value := None; error := None; errors := Some [] |}))
  ∧ (check (ajv (this w)) schemaKeyRef d = (d', Checked None) →
     (validate check errorsText schemaKeyRef d w).1
     = Ok (d', {| value := Some d'; error := None; errors := None |})).
Proof.
  split_and!; [intros text Hc | intros Hc | intros Hc];
    rewrite validate_unfold; unfold validateSchema; cbn [fst];
    rewrite Hc; reflexivity.
Qed.

Lemma validateException_unfold (fuel : nat) (schemaKeyRef : SchemaKeyRef)
    (d : T) (w : World) :
  validateException schemas ajvKeywords keywords formats engine check
    errorsText fuel schemaKeyRef d w
  = let r :=
      tolerant_engine schemas ajvKeywords keywords formats engine fuel
        (this w) in
    let w' := {| this := {| ajv := ajv (this w);
                            transactionSchemas := registry r.2 |};
                 trace := trace w ++ [EvValidateException schemaKeyRef] |} in
    match r.1 with
    | Ok _ =>
        (Ok (validateSchema check errorsText (target r.2) schemaKeyRef d), w')
    | Throw e => (Throw e, w')
    | Diverge => (Diverge, w')
    end.
Proof.
  unfold validateException, method, allocate, on_engine, use, bind, emit,
    modify, ret, tolerant_engine.
  cbn.
  destruct (reapply _ _ _ _ _) as [[[]| |] s]; reflexivity.
Qed.

End ValidateFacts.

(** ** The policy of [applySchema] *)

Section PolicyFacts.

Context {Value : Type}.
Variable schemas : gmap string Schema.
Variables ajvKeywords keywords formats : list string.
Variable engine : Engine.Behaviour.
Variable check : Ajv → SchemaKeyRef → IBlockData → IBlockData * CheckOutcome Value.
Variable errorsText : list (ErrorObject Value) → string.
Variable isException : option string → bool.
Variable JSON_stringify : Value → string.

Local Abbreviation applySchema' :=
  (applySchema schemas ajvKeywords keywords formats engine check errorsText
     isException JSON_stringify).
Local Abbreviation classify' := (classify isException).
Local Abbreviation classify_all' := (classify_all isException JSON_stringify).
Local Abbreviation what' := (what JSON_stringify).
Local Abbreviation strict_pass w d :=
  (validateSchema check errorsText (ajv (this w)) (KeyRef "block") d).
Local Abbreviation tolerant_pass s d :=
  (validateSchema check errorsText (target s) (KeyRef "block") d).
Local Abbreviation tolerant_engine' :=
  (tolerant_engine schemas ajvKeywords keywords formats engine).

Lemma askException_unfold (i : option string) (w : World) :
  askException isException i w = (Ok (isException i), logged w (EvIsException i)).
Proof. reflexivity. Qed.

Lemma classify_all_app (d : IBlockData) (pre rest : list (ErrorObject Value))
    (w w' : World) :
  classify_all' d pre w = (Ok tt, w') →
  classify_all' d (pre ++ rest) w = classify_all' d rest w'.
Proof.
  revert w. induction pre as [|e pre IH]; intros w H; cbn in *.
  - unfold ret in H. by simplify_eq.
  - unfold bind in *. destruct (classify' d e w) as [[[]| |] w1]; try done.
    by apply IH.
Qed.

(** [applySchema'] when the strict pass yields no error summary. *)
Lemma applySchema_strict (fuel : nat) (d d1 : IBlockData) (w : World)
    (r1 : ISchemaValidationResult Value IBlockData) :
  strict_pass w d = (d1, r1) →
  truthy (error r1) = false →
  applySchema' fuel d w = (Ok (value r1), logged w (EvValidate (KeyRef "block"))).
Proof.
  intros Hs He. unfold applySchema, bind.
  rewrite validate_unfold, Hs, He. reflexivity.
Qed.

(** [applySchema'] when the strict pass fails and the tolerant pass gets to
    run its check. *)
Lemma applySchema_tolerant (fuel : nat) (d d1 d2 : IBlockData) (w : World)
    (r1 r2 : ISchemaValidationResult Value IBlockData) (s : Extending) :
  strict_pass w d = (d1, r1) →
  truthy (error r1) = true →
  tolerant_engine' fuel (this w) = (Ok tt, s) →
  tolerant_pass s d1 = (d2, r2) →
  applySchema' fuel d w
  = match errors r2 with
    | None => (Ok (value r2), after_passes w s)
    | Some errs =>
        (run! classify_all' d2 errs in ret (value r2)) (after_passes w s)
    end.
Proof.
  intros Hs He Ht Hv. unfold applySchema, bind at 1.
  rewrite validate_unfold, Hs, He. cbn [negb].
  unfold bind at 1. rewrite validateException_unfold. cbn [this trace].
  rewrite Ht. cbn [fst snd]. rewrite Hv.
  unfold after_passes. rewrite <- (assoc_L (++)). cbn [app].
  destruct (errors r2); reflexivity.
Qed.

(** C5: when the strict pass yields an accepted value and no error, that
    record is the result; the only event is the strict check, so neither
    the tolerant pass nor the oracle is involved, and the instance is as
    before. *)
Theorem applySchema_strict_success (fuel : nat) (d d1 accepted : IBlockData)
    (w : World) (r1 : ISchemaValidationResult Value IBlockData) :
  strict_pass w d = (d1, r1) →
  value r1 = Some accepted →
  truthy (error r1) = false →
  applySchema' fuel d w
  = (Ok (Some accepted),
     {| this := this w; trace := trace w ++ [EvValidate (KeyRef "block")] |}).
Proof.
  intros Hs Hv He. rewrite (applySchema_strict fuel d d1 w r1 Hs He), Hv.
  reflexivity.
Qed.

(** C4: when the engine throws during the check of the tolerant pass,
    [applySchema'] returns normally, without a value; no error is
    classified and the oracle is not consulted. *)
Theorem applySchema_tolerant_engine_failure (fuel : nat)
    (d d1 d2 : IBlockData) (w : World)
    (r1 : ISchemaValidationResult Value IBlockData) (s : Extending)
    (stack : option string) :
  strict_pass w d = (d1, r1) →
  truthy (error r1) = true →
  tolerant_engine' fuel (this w) = (Ok tt, s) →
  check (target s) (KeyRef "block") d1 = (d2, Thrown stack) →
  applySchema' fuel d w = (Ok None, after_passes w s).
Proof.
  intros Hs He Ht Hc.
  rewrite (applySchema_tolerant fuel d d1 d2 w r1
             {| value := None; error := stack; errors := Some [] |} s Hs He Ht).
  - reflexivity.
  - unfold validateSchema. rewrite Hc. reflexivity.
Qed.

(** *** The loop over the errors of the tolerant pass

    The strict pass failed, the tolerant pass produced the errors
    [pre ++ err :: post], and the loop has come past [pre]: [w3] is the
    world when [err] is up. *)

Section ReachedError.

Variables (fuel : nat) (w w3 : World) (d d1 d2 : IBlockData).
Variables (r1 r2 : ISchemaValidationResult Value IBlockData) (s : Extending).
Variables (pre post : list (ErrorObject Value)) (err : ErrorObject Value).

Hypothesis Hstrict : strict_pass w d = (d1, r1).
Hypothesis Hfailed : truthy (error r1) = true.
Hypothesis Hengine : tolerant_engine' fuel (this w) = (Ok tt, s).
Hypothesis Htolerant : tolerant_pass s d1 = (d2, r2).
Hypothesis Herrors : errors r2 = Some (pre ++ err :: post).
Hypothesis Hpre : classify_all' d2 pre (after_passes w s) = (Ok tt, w3).

Lemma applySchema_reached :
  applySchema' fuel d w
  = (run! classify_all' d2 (err :: post) in ret (value r2)) w3.
Proof.
  rewrite (applySchema_tolerant fuel d d1 d2 w r1 r2 s Hstrict Hfailed
             Hengine Htolerant), Herrors.
  unfold bind at 1 2. by rewrite (classify_all_app _ _ _ _ _ Hpre).
Qed.

Lemma applySchema_fatal (w4 : World) :
  classify' d2 err w3 = (Ok true, w4) →
  applySchema' fuel d w = (Throw (BlockSchemaError (height d2) (what' err)), w4).
Proof.
  intros Hc. rewrite applySchema_reached. cbn [classify_all].
  unfold bind. by rewrite Hc.
Qed.

Lemma applySchema_crash (e : Exn) (w4 : World) :
  classify' d2 err w3 = (Throw e, w4) →
  applySchema' fuel d w = (Throw e, w4).
Proof.
  intros Hc. rewrite applySchema_reached. cbn [classify_all].
  unfold bind. by rewrite Hc.
Qed.

(** C1: an error whose path has no [.transactions[N]] segment concerns the
    block; when the block's identifier is not an exception, [applySchema']
    throws at once the failure with the height, the path (if any), the
    message and the serialized value of that error.  The oracle was asked
    about the block's identifier last: no later error is classified. *)
Theorem applySchema_block_error_fatal :
  (∀ g, ¬ Path.segment (dataPath err) g) →
  isException (id d2) = false →
  applySchema' fuel d w
  = (Throw (BlockSchemaError (height d2)
              ("Invalid data"
               +:+ (if truthy_string (dataPath err)
                    then " at " +:+ dataPath err else "")
               +:+ ": " +:+ interpolate (message err)
               +:+ ": " +:+ interpolate (JSON_stringify <$> data err))),
     {| this := this w3; trace := trace w3 ++ [EvIsException (id d2)] |}).
Proof.
  intros Hm Hex. apply match_transactions_None in Hm.
  apply applySchema_fatal.
  unfold classify. rewrite Hm. unfold bind.
  by rewrite askException_unfold, Hex.
Qed.

(** C2, as the code has it: when the path matches [.transactions[N]] and
    the block's array of transactions has an element under the key N, the
    error is fatal unless that transaction has an identifier that is an
    exception.  A transaction without identifier is fatal without the
    oracle being asked. *)
Theorem applySchema_transaction_error (txIndex : string)
    (txs : list ITransactionData) (tx : ITransactionData) :
  Path.match_transactions (dataPath err) = Some txIndex →
  transactions d2 = Some txs →
  Path.array_get txs txIndex = Some tx →
  (classify' d2 err w3).1
  = Ok (negb match tx_id tx with
             | Some i => isException (Some i)
             | None => false
             end)
  ∧ (tx_id tx = None →
     applySchema' fuel d w
     = (Throw (BlockSchemaError (height d2) (what' err)), w3))
  ∧ (∀ i, tx_id tx = Some i → isException (Some i) = false →
     applySchema' fuel d w
     = (Throw (BlockSchemaError (height d2) (what' err)),
        logged w3 (EvIsException (Some i)))).
Proof.
  intros Hm Htxs Htx.
  assert (Hc : classify' d2 err w3
               = match tx_id tx with
                 | Some i => (Ok (negb (isException (Some i))),
                              logged w3 (EvIsException (Some i)))
                 | None => (Ok true, w3)
                 end).
  { unfold classify. rewrite Hm, Htxs, Htx.
    destruct (tx_id tx); reflexivity. }
  split_and!.
  - rewrite Hc. by destruct (tx_id tx).
  - intros Hid. apply applySchema_fatal. by rewrite Hc, Hid.
  - intros i Hid Hex. apply applySchema_fatal. by rewrite Hc, Hid, Hex.
Qed.

(** C10: when the path matches [.transactions[N]] and the array of
    transactions is there but has nothing at index N, reading the [id] of
    the missing transaction throws a [TypeError], not the structured
    failure; when the block has no array of transactions at all, the error
    is not fatal, the oracle is not asked and the loop goes on. *)
Theorem applySchema_transaction_missing (txIndex : string) :
  Path.match_transactions (dataPath err) = Some txIndex →
  (∀ txs, transactions d2 = Some txs →
          txs !! N.to_nat (Path.decimal txIndex) = None →
          applySchema' fuel d w
          = (Throw (TypeError "Cannot read property 'id' of undefined"), w3))
  ∧ (transactions d2 = None →
     classify' d2 err w3 = (Ok false, w3)
     ∧ applySchema' fuel d w
       = (run! classify_all' d2 post in ret (value r2)) w3).
Proof.
  intros Hm. split.
  - intros txs Htxs Hnone. apply applySchema_crash.
    unfold classify, Path.array_get. rewrite Hm, Htxs, Hnone.
    by destruct (Path.canonical txIndex).
  - intros Htxs.
    assert (Hc : classify' d2 err w3 = (Ok false, w3)).
    { unfold classify. by rewrite Hm, Htxs. }
    split; [done|]. rewrite applySchema_reached.
    cbn [classify_all]. unfold bind at 1 2. by rewrite Hc.
Qed.

End ReachedError.

End PolicyFacts.

(** ** The registry and the engine *)

Section RegistryFacts.

Variable schemas : gmap string Schema.
Variable engine : Engine.Behaviour.

Local Abbreviation extendTransactionSchema' :=
  (extendTransactionSchema schemas engine).
Local Abbreviation updateTransactionArray' :=
  (updateTransactionArray schemas engine).
Local Abbreviation extendTransaction' := (extendTransaction schemas engine).

(** What [extendTransactionSchema] does once the entry of the registry is
    set. *)
Local Abbreviation adding t :=
  (run! addSchema engine (SBase t) in
   run! addSchema engine (SSigned t) in
   run! addSchema engine (SStrict t) in
   updateTransactionArray').

Lemma addSchema_unfold (sch : Schema) (s : Extending) :
  addSchema engine sch s
  = match store (target s) !! Engine.normalizeId (schema_key sch) with
    | Some _ =>
        (Throw (Engine.already_exists (Engine.normalizeId (schema_key sch))), s)
    | None =>
        match Engine.schema_error engine (target s) sch with
        | Some what => (Throw (EngineError what), s)
        | None =>
            (Ok tt,
             {| target :=
                  Engine.set_store
                    (insert (Engine.normalizeId (schema_key sch)) sch)
                    (target s);
                registry := registry s |})
        end
    end.
Proof.
  unfold addSchema, Engine.addSchema. destruct s as [a m]. cbn.
  destruct (store a !! _); [done|].
  by destruct (Engine.schema_error engine a sch).
Qed.

Lemma addSchema_ok (sch : Schema) (s s' : Extending) :
  addSchema engine sch s = (Ok tt, s') →
  store (target s) !! Engine.normalizeId (schema_key sch) = None
  ∧ Engine.schema_error engine (target s) sch = None
  ∧ s' = {| target :=
              Engine.set_store
                (insert (Engine.normalizeId (schema_key sch)) sch) (target s);
            registry := registry s |}.
Proof.
  rewrite addSchema_unfold. destruct (store (target s) !! _); [done|].
  destruct (Engine.schema_error engine (target s) sch); [done|].
  by intros [= <-].
Qed.

(** A call of [addSchema] that throws leaves the engine as it was, and
    what it throws is the engine's own error. *)
Lemma addSchema_throws (sch : Schema) (s s' : Extending) (e : Exn) :
  addSchema engine sch s = (Throw e, s') →
  s' = s ∧ ∃ what, e = EngineError what.
Proof.
  rewrite addSchema_unfold. destruct (store (target s) !! _).
  - intros [= <- <-]. split; [done|]. by eexists.
  - destruct (Engine.schema_error engine (target s) sch) as [what|]; [|done].
    intros [= <- <-]. split; [done|]. by eexists.
Qed.

Lemma addSchema_ends (sch : Schema) (s : Extending) :
  (addSchema engine sch s).1 ≠ Diverge.
Proof.
  rewrite addSchema_unfold. destruct (store (target s) !! _); [done|].
  by destruct (Engine.schema_error engine (target s) sch).
Qed.

Lemma addSchema_registry (sch : Schema) (s : Extending) :
  registry (addSchema engine sch s).2 = registry s.
Proof.
  rewrite addSchema_unfold. destruct (store (target s) !! _); [done|].
  by destruct (Engine.schema_error engine (target s) sch).
Qed.

Lemma updateTransactionArray_ok (s s' : Extending) :
  updateTransactionArray' s = (Ok tt, s') →
  ∃ block, schemas !! "block" = Some block
    ∧ Engine.normalizeId (schema_key block) ≠ "transactions"
    ∧ Engine.schema_error engine
        (Engine.set_store
           (λ st, <["transactions" := SArray (composite (JsMap.keys (registry s)))]>
                    (delete "transactions" (delete "block" st)))
           (target s))
        block = None
    ∧ registry s' = registry s
    ∧ options (target s') = options (target s)
    ∧ keywords_of (target s') = keywords_of (target s)
    ∧ formats_of (target s') = formats_of (target s)
    ∧ store (target s')
      = rebuilt block (JsMap.keys (registry s)) (store (target s)).
Proof.
  unfold updateTransactionArray, bind, removeSchema, on_target, modify, gets.
  destruct (addSchema engine (SArray _) _) as [[[]| |] s1] eqn:H1; try done.
  apply addSchema_ok in H1 as (_ & _ & ->).
  change (Engine.normalizeId (schema_key (SArray (composite (JsMap.keys (registry s))))))
    with "transactions".
  destruct (schemas !! "block") as [block|] eqn:Hb; [|done].
  intros (Hfree & Hadm & ->)%addSchema_ok. exists block.
  cbn in *. split_and!; try done.
  intros Heq. rewrite Heq, lookup_insert_eq in Hfree. done.
Qed.

Lemma updateTransactionArray_throws (s s' : Extending) (e : Exn) :
  updateTransactionArray' s = (Throw e, s') →
  ∀ h m, e ≠ BlockSchemaError h m.
Proof.
  unfold updateTransactionArray, bind, removeSchema, on_target, modify, gets.
  destruct (addSchema engine (SArray _) _) as [[[]| |] s1] eqn:H1; [| |done].
  - destruct (schemas !! "block") as [block|].
    + intros [_ [what ->]]%addSchema_throws. done.
    + by intros [= <- _].
  - apply addSchema_throws in H1 as [_ [what ->]]. by intros [= <- _].
Qed.

Lemma updateTransactionArray_ends (s : Extending) :
  (updateTransactionArray' s).1 ≠ Diverge.
Proof.
  unfold updateTransactionArray, bind, removeSchema, on_target, modify, gets.
  match goal with
  | |- context [addSchema engine ?sch ?st] =>
      pose proof (addSchema_ends sch st) as H1;
      destruct (addSchema engine sch st) as [[[]| |] s1]; [|done..]
  end.
  destruct (schemas !! "block") as [block|]; [apply addSchema_ends|done].
Qed.

Lemma updateTransactionArray_registry (s : Extending) :
  registry (updateTransactionArray' s).2 = registry s.
Proof.
  unfold updateTransactionArray, bind, removeSchema, on_target, modify, gets.
  match goal with
  | |- context [addSchema engine ?sch ?st] =>
      pose proof (addSchema_registry sch st) as H1;
      destruct (addSchema engine sch st) as [[[]| |] s1]; cbn [snd] in *;
        [|done..]
  end.
  destruct (schemas !! "block") as [block|]; [|done].
  by rewrite addSchema_registry.
Qed.

(** The method by the outcome of its [getSchema]. *)
Lemma extendTransactionSchema_unfold (t : TransactionSchema) (remove : bool)
    (s : Extending) :
  extendTransactionSchema' t remove s
  = match Engine.getSchema engine (schema_id t) (target s) with
    | Ok _ => adding t (prepared t remove s)
    | Throw e => (Throw e, s)
    | Diverge => (Diverge, s)
    end.
Proof.
  unfold extendTransactionSchema, bind at 1, getSchema, Engine.getSchema.
  unfold prepared, removes. destruct s as [[o st kw fm] m]. cbn [target registry store].
  destruct (st !! Engine.normalizeId (schema_id t)) as [x|].
  - by destruct (Engine.compile_error engine _ x).
  - by destruct remove.
Qed.

(** [getSchema] returns or throws the engine's error. *)
Lemma getSchema_outcome (k : string) (a : Ajv) :
  Engine.getSchema engine k a
  = Ok (bool_decide (is_Some (store a !! Engine.normalizeId k)))
  ∨ ∃ what, Engine.getSchema engine k a = Throw (EngineError what)
            ∧ is_Some (store a !! Engine.normalizeId k).
Proof.
  unfold Engine.getSchema. destruct (store a !! Engine.normalizeId k) as [x|].
  - destruct (Engine.compile_error engine a x) as [what|].
    + right. by exists what.
    + left. by rewrite bool_decide_eq_true_2.
  - left. rewrite bool_decide_eq_false_2; [done|]. by intros [? ?].
Qed.

(** What a call that returns has done. *)
Lemma adding_ok (t : TransactionSchema) (p s' : Extending) :
  adding t p = (Ok tt, s') →
  ∃ block, schemas !! "block" = Some block
    ∧ Engine.normalizeId (schema_key block) ≠ "transactions"
    ∧ registry s' = registry p
    ∧ options (target s') = options (target p)
    ∧ keywords_of (target s') = keywords_of (target p)
    ∧ formats_of (target s') = formats_of (target p)
    ∧ store (target s')
      = rebuilt block (JsMap.keys (registry p)) (extended t (store (target p)))
    ∧ store (target p) !! Engine.normalizeId (schema_id t) = None
    ∧ store (target p) !! (schema_id t +:+ "Signed") = None
    ∧ store (target p) !! (schema_id t +:+ "Strict") = None.
Proof.
  unfold bind at 1.
  destruct (addSchema engine (SBase t) p) as [[[]| |] p1] eqn:H1; try done.
  apply addSchema_ok in H1 as (Hf1 & _ & ->). cbn [schema_key] in *.
  unfold bind at 1.
  destruct (addSchema engine (SSigned t) _) as [[[]| |] p2] eqn:H2; try done.
  apply addSchema_ok in H2 as (Hf2 & _ & ->).
  cbn [schema_key target Engine.set_store store registry] in *.
  rewrite normalizeId_signed in *.
  rewrite lookup_insert_ne in Hf2
    by (intros Heq; by apply (normalizeId_ne_signed (schema_id t))).
  unfold bind at 1.
  destruct (addSchema engine (SStrict t) _) as [[[]| |] p3] eqn:H3; try done.
  apply addSchema_ok in H3 as (Hf3 & _ & ->).
  cbn [schema_key target Engine.set_store store registry] in *.
  rewrite normalizeId_strict in *.
  rewrite lookup_insert_ne in Hf3 by apply signed_ne_strict.
  rewrite lookup_insert_ne in Hf3
    by (intros Heq; by apply (normalizeId_ne_strict (schema_id t))).
  intros (block & Hb & Hk & _ & Hr & Ho & Hkw & Hf & Hs)%updateTransactionArray_ok.
  exists block. cbn in *. by rewrite Hr, Ho, Hkw, Hf, Hs.
Qed.

Lemma extendTransactionSchema_ok (t : TransactionSchema) (remove : bool)
    (s s' : Extending) :
  extendTransactionSchema' t remove s = (Ok tt, s') →
  ∃ block, schemas !! "block" = Some block
    ∧ Engine.normalizeId (schema_key block) ≠ "transactions"
    ∧ registry s' = registry (prepared t remove s)
    ∧ options (target s') = options (target s)
    ∧ keywords_of (target s') = keywords_of (target s)
    ∧ formats_of (target s') = formats_of (target s)
    ∧ store (target s')
      = rebuilt block (JsMap.keys (registry (prepared t remove s)))
          (extended t (store (target (prepared t remove s)))).
Proof.
  rewrite extendTransactionSchema_unfold.
  destruct (Engine.getSchema engine (schema_id t) (target s)); [|done..].
  intros (block & Hb & Hk & Hr & Ho & Hkw & Hf & Hs & _)%adding_ok.
  exists block. by split_and!.
Qed.

(** The keys of the three variants were free when a call that returns
    began to add. *)
Lemma extendTransactionSchema_ok_free (t : TransactionSchema) (remove : bool)
    (s s' : Extending) :
  extendTransactionSchema' t remove s = (Ok tt, s') →
  store (target (prepared t remove s)) !! Engine.normalizeId (schema_id t) = None
  ∧ store (target (prepared t remove s)) !! (schema_id t +:+ "Signed") = None
  ∧ store (target (prepared t remove s)) !! (schema_id t +:+ "Strict") = None.
Proof.
  rewrite extendTransactionSchema_unfold.
  destruct (Engine.getSchema engine (schema_id t) (target s)); [|done..].
  by intros (block & _ & _ & _ & _ & _ & _ & _ & H1 & H2 & H3)%adding_ok.
Qed.

(** A call that returns has removed first exactly when the engine held the
    key of the id or the flag was set. *)
Lemma extendTransactionSchema_ok_found (t : TransactionSchema) (remove : bool)
    (s s' : Extending) :
  extendTransactionSchema' t remove s = (Ok tt, s') →
  known (target s) (schema_id t) →
  removes remove (schema_id t) (target s) = true
  ∧ Engine.normalizeId (schema_id t) = schema_id t.
Proof.
  intros Hok [x Hx].
  assert (Hrm : removes remove (schema_id t) (target s) = true)
    by (unfold removes; by rewrite Hx).
  split; [done|].
  apply extendTransactionSchema_ok_free in Hok as (Hfree & _ & _).
  revert Hfree. unfold prepared. rewrite Hrm.
  cbn [target Engine.set_store store cleared].
  destruct (decide (Engine.normalizeId (schema_id t) = schema_id t)); [done|].
  rewrite !lookup_delete_ne, Hx; [done|done|..].
  - intros Heq. by apply (normalizeId_ne_signed (schema_id t)).
  - intros Heq. by apply (normalizeId_ne_strict (schema_id t)).
Qed.

Lemma adding_throws (t : TransactionSchema) (p s' : Extending) (e : Exn) :
  adding t p = (Throw e, s') → ∀ h m, e ≠ BlockSchemaError h m.
Proof.
  unfold bind at 1.
  destruct (addSchema engine (SBase t) p) as [[[]| |] p1] eqn:H1;
    [|by intros [= <- _]; apply addSchema_throws in H1 as [_ [? ->]]|done].
  unfold bind at 1.
  destruct (addSchema engine (SSigned t) p1) as [[[]| |] p2] eqn:H2;
    [|by intros [= <- _]; apply addSchema_throws in H2 as [_ [? ->]]|done].
  unfold bind at 1.
  destruct (addSchema engine (SStrict t) p2) as [[[]| |] p3] eqn:H3;
    [|by intros [= <- _]; apply addSchema_throws in H3 as [_ [? ->]]|done].
  apply updateTransactionArray_throws.
Qed.

Lemma extendTransactionSchema_throws (t : TransactionSchema) (remove : bool)
    (s s' : Extending) (e : Exn) :
  extendTransactionSchema' t remove s = (Throw e, s') →
  ∀ h m, e ≠ BlockSchemaError h m.
Proof.
  rewrite extendTransactionSchema_unfold.
  destruct (getSchema_outcome (schema_id t) (target s)) as [->|(what & -> & _)].
  - apply adding_throws.
  - by intros [= <- _].
Qed.

Lemma adding_ends (t : TransactionSchema) (p : Extending) :
  (adding t p).1 ≠ Diverge.
Proof.
  unfold bind at 1. pose proof (addSchema_ends (SBase t) p) as H1.
  destruct (addSchema engine (SBase t) p) as [[[]| |] p1]; [|done..].
  unfold bind at 1. pose proof (addSchema_ends (SSigned t) p1) as H2.
  destruct (addSchema engine (SSigned t) p1) as [[[]| |] p2]; [|done..].
  unfold bind at 1. pose proof (addSchema_ends (SStrict t) p2) as H3.
  destruct (addSchema engine (SStrict t) p2) as [[[]| |] p3]; [|done..].
  apply updateTransactionArray_ends.
Qed.

Lemma extendTransactionSchema_ends (t : TransactionSchema) (remove : bool)
    (s : Extending) :
  (extendTransactionSchema' t remove s).1 ≠ Diverge.
Proof.
  rewrite extendTransactionSchema_unfold.
  destruct (getSchema_outcome (schema_id t) (target s)) as [->|(what & -> & _)];
    [apply adding_ends|done].
Qed.

Lemma adding_registry (t : TransactionSchema) (p : Extending) :
  registry (adding t p).2 = registry p.
Proof.
  unfold bind at 1. pose proof (addSchema_registry (SBase t) p) as H1.
  destruct (addSchema engine (SBase t) p) as [[[]| |] p1]; [|done..].
  unfold bind at 1. pose proof (addSchema_registry (SSigned t) p1) as H2.
  destruct (addSchema engine (SSigned t) p1) as [[[]| |] p2];
    cbn [snd] in *; [|congruence..].
  unfold bind at 1. pose proof (addSchema_registry (SStrict t) p2) as H3.
  destruct (addSchema engine (SStrict t) p2) as [[[]| |] p3];
    cbn [snd] in *; [|congruence..].
  rewrite updateTransactionArray_registry. congruence.
Qed.

(** Whatever the outcome, the registry is either untouched (when
    [getSchema] throws) or set before anything else can throw. *)
Lemma extendTransactionSchema_registry (t : TransactionSchema) (remove : bool)
    (s : Extending) :
  registry (extendTransactionSchema' t remove s).2
  = match Engine.getSchema engine (schema_id t) (target s) with
    | Ok _ => registry (prepared t remove s)
    | _ => registry s
    end.
Proof.
  rewrite extendTransactionSchema_unfold.
  destruct (Engine.getSchema engine (schema_id t) (target s)); [|done..].
  apply adding_registry.
Qed.

Lemma rebuilt_lookup_transactions (b : Schema) (ks : list string)
    (st : gmap string Schema) :
  Engine.normalizeId (schema_key b) ≠ "transactions" →
  rebuilt b ks st !! "transactions" = Some (SArray (composite ks)).
Proof.
  intros Hk. unfold rebuilt. by rewrite lookup_insert_ne, lookup_insert_eq.
Qed.

Lemma extendTransaction_unfold (t : TransactionSchema) (remove : bool)
    (w : World) :
  extendTransaction' t remove w
  = let r := extendTransactionSchema' t remove (extending (this w)) in
    (r.1, {| this := {| ajv := target r.2; transactionSchemas := registry r.2 |};
             trace := trace w |}).
Proof.
  unfold extendTransaction, method, on_engine, extending.
  cbn [deref world this].
  by destruct (extendTransactionSchema schemas engine t remove _) as [o e].
Qed.

Lemma extendTransaction_ok (t : TransactionSchema) (remove : bool)
    (w w' : World) :
  extendTransaction' t remove w = (Ok tt, w') →
  ∃ s', extendTransactionSchema' t remove (extending (this w)) = (Ok tt, s')
        ∧ ajv (this w') = target s'
        ∧ transactionSchemas (this w') = registry s'
        ∧ trace w' = trace w.
Proof.
  rewrite extendTransaction_unfold.
  destruct (extendTransactionSchema' _ _ _) as [o s']. cbn.
  intros [= -> <-]. by exists s'.
Qed.

(** C6, as the code has it: after a call of [extendTransaction] that
    returns, whatever its [remove] flag, the engine holds under
    "transactions" the array schema without additional items whose
    alternatives are the references to the signed variants of the keys of
    the registry, in the registry's order. *)
Theorem extendTransaction_composite (t : TransactionSchema) (remove : bool)
    (w w' : World) :
  extendTransaction' t remove w = (Ok tt, w') →
  store (ajv (this w')) !! "transactions"
  = Some (SArray
            {| array_id := "transactions";
               array_type := "array";
               additionalItems := false;
               items_anyOf :=
                 (λ k, {| ref := k +:+ "Signed" |})
                   <$> JsMap.keys (transactionSchemas (this w')) |}).
Proof.
  intros (s' & Hs' & -> & -> & _)%extendTransaction_ok.
  apply extendTransactionSchema_ok in Hs'
    as (b & _ & Hk & -> & _ & _ & _ & ->).
  by apply rebuilt_lookup_transactions.
Qed.

(** *** The block schema of the table

    [updateTransactionArray] adds [schemas.block] again.  From here on the
    table of [./schemas] is taken to have a schema named "block" whose
    [$id] is "block", the schema that refers to "transactions". *)

Variable block : Schema.
Hypothesis Hblock : schemas !! "block" = Some block.
Hypothesis Hblock_key : schema_key block = "block".

(** Nothing the engine knew is unknown after a call of the loop that
    returns. *)
Lemma rebuilt_extended_cleared_known (t : TransactionSchema) (rm : bool)
    (ks : list string) (st : gmap string Schema) (x : string) :
  (rm = true → Engine.normalizeId (schema_id t) = schema_id t) →
  is_Some (st !! x) →
  is_Some (rebuilt block ks (extended t (cleared rm (schema_id t) st)) !! x).
Proof.
  intros Hrm Hx. unfold rebuilt, extended. rewrite Hblock_key, normalizeId_block.
  destruct (decide (x = "block")) as [->|?]; [by rewrite lookup_insert_eq|].
  rewrite lookup_insert_ne by done.
  destruct (decide (x = "transactions")) as [->|?];
    [by rewrite lookup_insert_eq|].
  rewrite lookup_insert_ne, !lookup_delete_ne by done.
  destruct (decide (x = schema_id t +:+ "Strict")) as [->|?];
    [by rewrite lookup_insert_eq|].
  rewrite lookup_insert_ne by done.
  destruct (decide (x = schema_id t +:+ "Signed")) as [->|?];
    [by rewrite lookup_insert_eq|].
  rewrite lookup_insert_ne by done.
  destruct (decide (x = Engine.normalizeId (schema_id t))) as [->|Hbase];
    [by rewrite lookup_insert_eq|].
  rewrite lookup_insert_ne by done.
  destruct rm; [|done]. rewrite (Hrm eq_refl) in Hbase. unfold cleared.
  by rewrite !lookup_delete_ne.
Qed.

Lemma rebuilt_extended_base (t : TransactionSchema) (ks : list string)
    (st : gmap string Schema) :
  is_Some (rebuilt block ks (extended t st) !! Engine.normalizeId (schema_id t)).
Proof.
  unfold rebuilt, extended. rewrite Hblock_key, normalizeId_block.
  destruct (decide (Engine.normalizeId (schema_id t) = "block")) as [->|?];
    [by rewrite lookup_insert_eq|].
  rewrite lookup_insert_ne by done.
  destruct (decide (Engine.normalizeId (schema_id t) = "transactions")) as [->|?];
    [by rewrite lookup_insert_eq|].
  rewrite lookup_insert_ne, !lookup_delete_ne by done.
  rewrite lookup_insert_ne by apply strict_ne_normalizeId.
  rewrite lookup_insert_ne by apply signed_ne_normalizeId.
  by rewrite lookup_insert_eq.
Qed.

Lemma rebuilt_extended_variants (t : TransactionSchema) (ks : list string)
    (st : gmap string Schema) :
  rebuilt block ks (extended t st) !! (schema_id t +:+ "Signed")
  = Some (SSigned t)
  ∧ rebuilt block ks (extended t st) !! (schema_id t +:+ "Strict")
    = Some (SStrict t)
  ∧ (Engine.normalizeId (schema_id t) ≠ "block" →
     Engine.normalizeId (schema_id t) ≠ "transactions" →
     rebuilt block ks (extended t st) !! Engine.normalizeId (schema_id t)
     = Some (SBase t)).
Proof.
  destruct (signed_not_reserved (schema_id t)) as [? ?].
  destruct (strict_not_reserved (schema_id t)) as [? ?].
  unfold rebuilt, extended. rewrite Hblock_key, normalizeId_block. split_and!.
  - rewrite !lookup_insert_ne, !lookup_delete_ne by done.
    rewrite lookup_insert_ne
      by (intros Heq; by apply (signed_ne_strict (schema_id t))).
    by rewrite lookup_insert_eq.
  - rewrite !lookup_insert_ne, !lookup_delete_ne by done.
    by rewrite lookup_insert_eq.
  - intros ? ?. rewrite !lookup_insert_ne, !lookup_delete_ne by done.
    rewrite lookup_insert_ne by apply strict_ne_normalizeId.
    rewrite lookup_insert_ne by apply signed_ne_normalizeId.
    by rewrite lookup_insert_eq.
Qed.

Lemma rebuilt_extended_other (t : TransactionSchema) (ks : list string)
    (st : gmap string Schema) (x : string) :
  x ≠ Engine.normalizeId (schema_id t) →
  x ≠ schema_id t +:+ "Signed" → x ≠ schema_id t +:+ "Strict" →
  x ≠ "block" → x ≠ "transactions" →
  rebuilt block ks (extended t st) !! x = st !! x.
Proof.
  unfold rebuilt, extended. rewrite Hblock_key, normalizeId_block.
  intros ? ? ? ? ?.
  rewrite !lookup_insert_ne, !lookup_delete_ne by done.
  by rewrite !lookup_insert_ne.
Qed.

(** The order of the registry after a call that removes first: the type
    comes last. *)
Lemma keys_prepared_removes (t : TransactionSchema) (remove : bool)
    (s : Extending) :
  removes remove (schema_id t) (target s) = true →
  JsMap.keys (registry (prepared t remove s))
  = filter (λ k, k ≠ schema_id t) (JsMap.keys (registry s)) ++ [schema_id t].
Proof.
  intros Hrm. unfold prepared. cbn [registry]. rewrite Hrm.
  apply keys_set_delete.
Qed.



Lemma no_branch_of_others (k : string) (ks : list string) :
  filter (λ r, r = signed_ref k) (signed_ref <$> filter (λ k', k' ≠ k) ks) = [].
Proof.
  induction ks as [|k' ks IH]; [done|].
  rewrite filter_cons. destruct (decide (k' ≠ k)) as [Hne|?]; [|done].
  cbn [fmap list_fmap]. rewrite filter_cons, decide_False; [done|].
  intros Heq%signed_ref_inj. done.
Qed.

Lemma branches_last (k : string) (ks : list string) :
  branches k (composite (filter (λ k', k' ≠ k) ks ++ [k])) = 1.
Proof.
  unfold branches, composite. cbn [items_anyOf].
  rewrite fmap_app, filter_app, length_app. cbn [fmap list_fmap].
  rewrite filter_cons, decide_True, filter_nil by done. cbn [length].
  by rewrite no_branch_of_others.
Qed.


(** C3, as the code has it: a call of [extendTransaction] with [remove]
    set replaces the type instead of removing it.  When the call returns,
    the id is the last key of the registry, the signed and strict variants
    of the schema passed in are in the engine, the base variant too unless
    the engine files the id under "block" or "transactions", and the
    composite schema is rebuilt with one branch for the id. *)
Theorem extendTransaction_remove_replaces (t : TransactionSchema)
    (w w' : World) :
  extendTransaction' t true w = (Ok tt, w') →
  JsMap.keys (transactionSchemas (this w'))
  = filter (λ k, k ≠ schema_id t) (JsMap.keys (transactionSchemas (this w)))
      ++ [schema_id t]
  ∧ store (ajv (this w')) !! (schema_id t +:+ "Signed") = Some (SSigned t)
  ∧ store (ajv (this w')) !! (schema_id t +:+ "Strict") = Some (SStrict t)
  ∧ (Engine.normalizeId (schema_id t) ≠ "block" →
     Engine.normalizeId (schema_id t) ≠ "transactions" →
     store (ajv (this w')) !! Engine.normalizeId (schema_id t) = Some (SBase t))
  ∧ ∃ a, store (ajv (this w')) !! "transactions" = Some (SArray a)
         ∧ branches (schema_id t) a = 1.
Proof.
  intros (s' & Hs' & -> & -> & _)%extendTransaction_ok.
  assert (Hrm : removes true (schema_id t) (target (extending (this w))) = true).
  { unfold removes. by case_match. }
  pose proof Hs' as (b & Hb & Hk & Hr & _ & _ & _ & Hst)%extendTransactionSchema_ok.
  rewrite Hblock in Hb. injection Hb as <-.
  rewrite (keys_prepared_removes _ _ _ Hrm) in Hst.
  rewrite Hr, Hst, (keys_prepared_removes _ _ _ Hrm).
  destruct (rebuilt_extended_variants t
              (filter (λ k, k ≠ schema_id t) (JsMap.keys (registry (extending (this w))))
                 ++ [schema_id t])
              (store (target (prepared t true (extending (this w))))))
    as (Hsigned & Hstrict & Hbase).
  split_and!; try done.
  eexists. split; [by apply rebuilt_lookup_transactions|].
  apply branches_last.
Qed.


End RegistryFacts.

(** ** What a call touches *)

Section EngineFrame.

Variable schemas : gmap string Schema.
Variable engine : Engine.Behaviour.

Local Abbreviation extendTransactionSchema' :=
  (extendTransactionSchema schemas engine).
Local Abbreviation updateTransactionArray' :=
  (updateTransactionArray schemas engine).

Lemma always_bind {S A B} (R : S → S → Prop) (m : M S A) (k : A → M S B) :
  (∀ s1 s2 s3, R s1 s2 → R s2 s3 → R s1 s3) →
  always R m → (∀ a, always R (k a)) → always R (bind m k).
Proof.
  intros Htrans Hm Hk s. unfold bind. specialize (Hm s).
  destruct (m s) as [[a| |] s1]; [|done..].
  exact (Htrans _ _ _ Hm (Hk a s1)).
Qed.

Lemma confined_refl (ks : list string) (s : Extending) : confined ks s s.
Proof. by unfold confined. Qed.

Lemma confined_trans (ks : list string) (s1 s2 s3 : Extending) :
  confined ks s1 s2 → confined ks s2 s3 → confined ks s1 s3.
Proof.
  intros (Ho & Hk & Hf & Hs) (Ho' & Hk' & Hf' & Hs'). unfold confined.
  rewrite Ho', Hk', Hf'. split_and!; try done.
  intros x Hx. by rewrite Hs', Hs.
Qed.

Lemma getSchema_confined (ks : list string) (k : string) :
  always (confined ks) (getSchema engine k).
Proof. intros s. apply confined_refl. Qed.

Lemma addSchema_confined (ks : list string) (sch : Schema) :
  Engine.normalizeId (schema_key sch) ∈ ks →
  always (confined ks) (addSchema engine sch).
Proof.
  intros Hin s. rewrite addSchema_unfold.
  destruct (store (target s) !! _); [apply confined_refl|].
  destruct (Engine.schema_error engine (target s) sch); [apply confined_refl|].
  unfold confined. cbn. split_and!; try done.
  intros x Hx. rewrite lookup_insert_ne; [done|].
  intros Heq. apply Hx. by rewrite <- Heq.
Qed.

Lemma removeSchema_confined (ks : list string) (k : string) :
  k ∈ ks → always (confined ks) (removeSchema k).
Proof.
  intros Hin s. unfold confined. cbn. split_and!; try done.
  intros x Hx. rewrite lookup_delete_ne; [done|].
  intros Heq. apply Hx. by rewrite <- Heq.
Qed.

Lemma on_registry_confined (ks : list string)
    (f : JsMap.t TransactionSchema → JsMap.t TransactionSchema) :
  always (confined ks) (on_registry f).
Proof. intros s. by unfold confined. Qed.

Lemma updateTransactionArray_confined (ks : list string) :
  "block" ∈ ks → "transactions" ∈ ks →
  (∀ b, schemas !! "block" = Some b → Engine.normalizeId (schema_key b) ∈ ks) →
  always (confined ks) updateTransactionArray'.
Proof.
  intros Hb Ht Hk. unfold updateTransactionArray.
  apply always_bind; [apply confined_trans|by apply removeSchema_confined|].
  intros _.
  apply always_bind; [apply confined_trans|by apply removeSchema_confined|].
  intros _.
  apply always_bind; [apply confined_trans|intros s; apply confined_refl|].
  intros ks'.
  apply always_bind; [apply confined_trans|by apply addSchema_confined|].
  intros _. destruct (schemas !! "block") as [b|] eqn:Hsb.
  - apply addSchema_confined. by apply Hk.
  - intros s. apply confined_refl.
Qed.

(** Whatever the outcome, a call touches the engine's store at the keys of
    the three variants of the type (for the base variant, the id as it is
    and as the engine files it), at "block", at "transactions" and at the
    key of the block schema of the table only, and leaves options, keywords
    and formats alone. *)
Lemma extendTransactionSchema_confined (ks : list string)
    (t : TransactionSchema) (remove : bool) :
  (∀ x, x ∈ variant_keys (schema_id t) → x ∈ ks) →
  Engine.normalizeId (schema_id t) ∈ ks →
  "block" ∈ ks → "transactions" ∈ ks →
  (∀ b, schemas !! "block" = Some b → Engine.normalizeId (schema_key b) ∈ ks) →
  always (confined ks) (extendTransactionSchema' t remove).
Proof.
  intros Hv Hn Hb Ht Hk. unfold extendTransactionSchema.
  assert (H1 : schema_id t ∈ ks) by (apply Hv; left).
  assert (H2 : schema_id t +:+ "Signed" ∈ ks) by (apply Hv; right; left).
  assert (H3 : schema_id t +:+ "Strict" ∈ ks)
    by (apply Hv; right; right; left).
  apply always_bind; [apply confined_trans|apply getSchema_confined|].
  intros found.
  apply always_bind; [apply confined_trans| |].
  { destruct (if found then true else remove).
    - apply always_bind; [apply confined_trans|apply on_registry_confined|].
      intros _.
      apply always_bind; [apply confined_trans|by apply removeSchema_confined|].
      intros _.
      apply always_bind; [apply confined_trans|by apply removeSchema_confined|].
      intros _. by apply removeSchema_confined.
    - intros s. apply confined_refl. }
  intros _.
  apply always_bind; [apply confined_trans|apply on_registry_confined|].
  intros _.
  apply always_bind; [apply confined_trans|by apply addSchema_confined|].
  intros _.
  apply always_bind;
    [apply confined_trans
    |apply addSchema_confined; cbn [schema_key]; by rewrite normalizeId_signed|].
  intros _.
  apply always_bind;
    [apply confined_trans
    |apply addSchema_confined; cbn [schema_key]; by rewrite normalizeId_strict|].
  intros _. by apply updateTransactionArray_confined.
Qed.

(** The keys a call for [t] can touch. *)
Lemma extendTransactionSchema_touches (t : TransactionSchema) (remove : bool) :
  always
    (confined
       (variant_keys (schema_id t)
          ++ [Engine.normalizeId (schema_id t); "block"; "transactions"]
          ++ match schemas !! "block" with
             | Some b => [Engine.normalizeId (schema_key b)]
             | None => []
             end))
    (extendTransactionSchema' t remove).
Proof.
  apply extendTransactionSchema_confined.
  - intros x Hx. apply elem_of_app. by left.
  - apply elem_of_app. right. left.
  - apply elem_of_app. right. right. left.
  - apply elem_of_app. right. right. right. left.
  - intros b Hb. rewrite Hb, !elem_of_app. right. right. left.
Qed.

Lemma same_setup_trans (s1 s2 s3 : Extending) :
  same_setup s1 s2 → same_setup s2 s3 → same_setup s1 s3.
Proof.
  intros (Ho & Hk & Hf) (Ho' & Hk' & Hf'). unfold same_setup.
  by rewrite Ho', Hk', Hf'.
Qed.

Lemma extendTransactionSchema_setup (t : TransactionSchema) (remove : bool) :
  always same_setup (extendTransactionSchema' t remove).
Proof.
  intros s. by destruct (extendTransactionSchema_touches t remove s)
              as (Ho & Hk & Hf & _).
Qed.

(** The loop leaves options, keywords and formats alone. *)
Lemma reapply_setup (fuel i : nat) :
  always same_setup (reapply schemas engine fuel i).
Proof.
  revert i. induction fuel as [|fuel IH]; intros i s; [done|].
  cbn [reapply]. destruct (registry s !! i) as [[[k t]|]|]; [| |done].
  - apply always_bind;
      [apply same_setup_trans|apply extendTransactionSchema_setup|].
    intros _. apply IH.
  - apply IH.
Qed.

End EngineFrame.

(** ** The engine of the tolerant pass *)

Section TolerantEngineFacts.

Variable schemas : gmap string Schema.
Variables ajvKeywords keywords formats : list string.
Variable engine : Engine.Behaviour.
Variable block : Schema.
Hypothesis Hblock : schemas !! "block" = Some block.
Hypothesis Hblock_key : schema_key block = "block".

Context {Value T : Type}.
Variable check : Ajv → SchemaKeyRef → T → T * CheckOutcome Value.
Variable errorsText : list (ErrorObject Value) → string.

Local Abbreviation reapply' := (reapply schemas engine).
Local Abbreviation extendTransactionSchema' :=
  (extendTransactionSchema schemas engine).
Local Abbreviation instantiateAjv' :=
  (instantiateAjv schemas ajvKeywords keywords formats).
Local Abbreviation validateException' :=
  (validateException schemas ajvKeywords keywords formats engine check
     errorsText).
Local Abbreviation tolerant_engine' :=
  (tolerant_engine schemas ajvKeywords keywords formats engine).

Lemma set_slot_absent {V} (k : string) (v : V) (m : JsMap.t V) :
  k ∉ JsMap.keys m → JsMap.set_slot k v <$> m = m.
Proof.
  induction m as [|[[k' v']|] m IH]; [done| |]; cbn [fmap list_fmap];
    rewrite ?keys_cons_Some, ?keys_cons_None; intros Hk.
  - apply not_elem_of_cons in Hk as [Hne Hk].
    cbn [JsMap.set_slot]. rewrite decide_False by (by intros ->).
    f_equal. by apply IH.
  - f_equal. by apply IH.
Qed.

(** Setting an entry to what it is changes nothing. *)
Lemma set_same {V} (k : string) (v : V) (m1 m2 : JsMap.t V) :
  k ∉ JsMap.keys m1 → k ∉ JsMap.keys m2 →
  JsMap.set k v (m1 ++ Some (k, v) :: m2) = m1 ++ Some (k, v) :: m2.
Proof.
  intros H1 H2. unfold JsMap.set, JsMap.has.
  rewrite bool_decide_eq_true_2
    by (rewrite keys_app, keys_cons_Some; set_solver).
  rewrite fmap_app. cbn [fmap list_fmap JsMap.set_slot].
  rewrite decide_True by done. by rewrite !set_slot_absent.
Qed.

Lemma all_keys_middle (m1 m2 : JsMap.t TransactionSchema) (k : string)
    (t : TransactionSchema) :
  all_keys (m1 ++ Some (k, t) :: m2)
  = (JsMap.keys m1 ≫= variant_keys)
      ++ variant_keys k
      ++ (JsMap.keys m2 ≫= variant_keys)
      ++ ["block"; "transactions"].
Proof.
  unfold all_keys. rewrite keys_app, keys_cons_Some, bind_app, bind_cons.
  by rewrite <- !(assoc_L (++)).
Qed.

(** The loop over a separate registry, from slot [length done] on: it ends,
    by a return or by an error of the engine, and the registry is as it was.
    When it returns, the engine holds the three variants of every type and
    the composite schema for the keys of the registry. *)
Lemma reapply_separate (m : JsMap.t TransactionSchema) :
  Forall (λ e, schema_id e.2 = e.1) (JsMap.entries m) →
  NoDup (all_keys m) →
  Forall (λ k, Engine.plain k = true) (JsMap.keys m) →
  ∀ todo done a fuel,
    m = done ++ todo →
    length todo < fuel →
    (∀ k t, (k, t) ∈ JsMap.entries done → applied k t a) →
    (∀ x, x ∈ JsMap.keys todo ≫= variant_keys → store a !! x = None) →
    (JsMap.entries done ≠ [] →
     store a !! "transactions" = Some (SArray (composite (JsMap.keys m)))) →
    ∃ o a',
      reapply' fuel (length done) {| target := a; registry := m |}
      = (o, {| target := a'; registry := m |})
      ∧ o ≠ Diverge
      ∧ (o = Ok tt →
         options a' = options a
         ∧ keywords_of a' = keywords_of a
         ∧ formats_of a' = formats_of a
         ∧ (∀ k t, (k, t) ∈ JsMap.entries m → applied k t a')
         ∧ (JsMap.entries m ≠ [] →
            store a' !! "transactions"
            = Some (SArray (composite (JsMap.keys m))))).
Proof.
  intros Hwf Hnodup Hplain todo.
  induction todo as [|e todo IH]; intros done a [|fuel] Hm Hfuel Hdone Htodo Hcomp;
    try (cbn in Hfuel; lia).
  - rewrite app_nil_r in Hm. subst done. exists (Ok tt), a.
    cbn [reapply registry].
    assert (m !! length m = None) as -> by (by apply lookup_ge_None_2).
    done.
  - cbn [reapply registry].
    assert (m !! length done = Some e) as ->
      by (rewrite Hm; by apply list_lookup_middle).
    destruct e as [[k t]|].
    + (* a live entry: the body runs *)
      assert (Hid : schema_id t = k).
      { rewrite Forall_forall in Hwf. apply (Hwf (k, t)).
        unfold JsMap.entries. rewrite Hm, omap_app, elem_of_app.
        right. cbn. left. }
      assert (Hnorm : ∀ k', k' ∈ JsMap.keys m → Engine.normalizeId k' = k').
      { intros k' Hk'. apply normalizeId_plain.
        rewrite Forall_forall in Hplain. by apply Hplain. }
      assert (Hkm : k ∈ JsMap.keys m).
      { rewrite Hm, keys_app, keys_cons_Some, elem_of_app. right. left. }
      pose proof Hnodup as Hnd. rewrite Hm, all_keys_middle in Hnd.
      apply NoDup_app in Hnd as (_ & Hd1 & Hnd).
      apply NoDup_app in Hnd as (_ & Hd2 & Hnd).
      apply NoDup_app in Hnd as (_ & Hd3 & _).
      assert (Hkk : k ∈ variant_keys k) by left.
      assert (Hk1 : k ∉ JsMap.keys done).
      { intros Hin. apply (Hd1 k).
        - apply list_elem_of_bind. by exists k.
        - apply elem_of_app. by left. }
      assert (Hk2 : k ∉ JsMap.keys todo).
      { intros Hin. apply (Hd2 k Hkk), elem_of_app. left.
        apply list_elem_of_bind. by exists k. }
      assert (Hfresh : ∀ x, x ∈ variant_keys k → store a !! x = None).
      { intros x Hx. apply Htodo. rewrite keys_cons_Some, bind_cons.
        apply elem_of_app. by left. }
      assert (Hget : Engine.getSchema engine (schema_id t) a = Ok false).
      { unfold Engine.getSchema. by rewrite Hid, (Hnorm k Hkm), (Hfresh k Hkk). }
      assert (Hprep : prepared t false {| target := a; registry := m |}
                      = {| target := Engine.set_store (cleared false k) a;
                           registry := m |}).
      { unfold prepared, removes. cbn [target registry].
        rewrite Hid, (Hnorm k Hkm), (Hfresh k Hkk). f_equal.
        rewrite Hm. by apply set_same. }
      pose proof (extendTransactionSchema_registry schemas engine t false
                    {| target := a; registry := m |}) as Hreg.
      pose proof (extendTransactionSchema_ends schemas engine t false
                    {| target := a; registry := m |}) as Hends.
      cbn [target] in Hreg. rewrite Hget, Hprep in Hreg. cbn [registry] in Hreg.
      unfold bind.
      destruct (extendTransactionSchema' t false {| target := a; registry := m |})
        as [[[]|e|] [a1 m1]] eqn:H1; cbn [fst snd registry] in *;
        [|subst m1; by exists (Throw e), a1|done].
      subst m1.
      pose proof H1 as (b & Hb & _ & _ & Ho & Hkw & Hf & Hst)%extendTransactionSchema_ok.
      rewrite Hblock in Hb. injection Hb as <-.
      rewrite Hprep in Hst.
      cbn [target registry store Engine.set_store cleared] in Ho, Hkw, Hf, Hst.
      rewrite <- Hid in Hkm.
      assert (Hother : ∀ x, x ∉ variant_keys k → x ≠ "block" →
                            x ≠ "transactions" → store a1 !! x = store a !! x).
      { intros x Hx ? ?. rewrite Hst.
        apply not_elem_of_cons in Hx as [? Hx].
        apply not_elem_of_cons in Hx as [? Hx].
        apply not_elem_of_cons in Hx as [? _].
        apply (rebuilt_extended_other block Hblock_key);
          rewrite ?(Hnorm _ Hkm), ?Hid; done. }
      destruct (IH (done ++ [Some (k, t)]) a1 fuel)
        as (o & a' & Hrun & Hend & Hok).
      * by rewrite <- (assoc_L (++)).
      * cbn in Hfuel. lia.
      * intros k' t'. unfold JsMap.entries. rewrite omap_app, elem_of_app.
        cbn. intros [Hin|Hin%list_elem_of_singleton].
        -- assert (Hk'm : k' ∈ JsMap.keys m).
           { rewrite Hm, keys_app, elem_of_app. left.
             apply list_elem_of_fmap. by exists (k', t'). }
           assert (Hv : ∀ x, x ∈ variant_keys k' →
                     store a1 !! x = store a !! x).
           { intros x Hx.
             assert (Hxd : x ∈ JsMap.keys done ≫= variant_keys).
             { apply list_elem_of_bind. exists k'. split; [done|].
               apply list_elem_of_fmap. by exists (k', t'). }
             specialize (Hd1 x Hxd). apply Hother.
             - intros ?. apply Hd1, elem_of_app. by left.
             - intros ->. apply Hd1. rewrite !elem_of_app. right. right. left.
             - intros ->. apply Hd1. rewrite !elem_of_app. right. right.
               right. left. }
           destruct (Hdone k' t' Hin) as (Hb1 & Hb2 & Hb3).
           unfold applied. rewrite (Hnorm k' Hk'm) in *.
           rewrite !Hv; [done|..].
           ++ right. right. left.
           ++ right. left.
           ++ left.
        -- injection Hin as -> ->. unfold applied. rewrite Hst, <- Hid.
           destruct (rebuilt_extended_variants block Hblock_key t
                       (JsMap.keys m) (store a)) as (Hv1 & Hv2 & Hv3).
           split_and!; [|done..]. apply Hv3; rewrite (Hnorm _ Hkm), Hid;
             intros ->.
           ++ apply (Hd2 "block" Hkk). rewrite elem_of_app. right. left.
           ++ apply (Hd2 "transactions" Hkk). rewrite elem_of_app. right.
              right. left.
      * intros x Hx. rewrite Hother.
        -- apply Htodo. rewrite keys_cons_Some, bind_cons.
           apply elem_of_app. by right.
        -- intros Hxk. apply (Hd2 x Hxk), elem_of_app. by left.
        -- intros ->. apply (Hd3 _ Hx). left.
        -- intros ->. apply (Hd3 _ Hx). right. left.
      * intros _. rewrite Hst. apply rebuilt_lookup_transactions.
        by rewrite Hblock_key.
      * rewrite length_app, Nat.add_1_r in Hrun. cbn in Hrun.
        exists o, a'. split_and!; try done.
        intros Heq. destruct (Hok Heq) as (? & ? & ? & ? & ?).
        split_and!; try done; congruence.
    + (* an empty slot is skipped *)
      destruct (IH (done ++ [None]) a fuel)
        as (o & a' & Hrun & Hend & Hok).
      * by rewrite <- (assoc_L (++)).
      * cbn in Hfuel. lia.
      * intros k' t'. unfold JsMap.entries. rewrite omap_app, app_nil_r.
        apply Hdone.
      * intros x Hx. by apply Htodo.
      * unfold JsMap.entries. rewrite omap_app, app_nil_r. apply Hcomp.
      * rewrite length_app, Nat.add_1_r in Hrun. by exists o, a'.
Qed.

Lemma tolerant_engine_fresh :
  store (instantiateAjv' tolerant_options) = schemas
  ∧ options (instantiateAjv' tolerant_options) !! "allErrors" = Some (OBool true)
  ∧ options (instantiateAjv' tolerant_options) !! "verbose" = Some (OBool true).
Proof. done. Qed.

(** The loop of the tolerant pass over a separate registry ends and leaves
    the registry as it was; when it returns, it leaves an engine that holds
    every registered type. *)
Lemma tolerant_engine_separate (fuel : nat) (v : Validator) :
  separate schemas (transactionSchemas v) →
  length (transactionSchemas v) < fuel →
  ∃ o a,
    tolerant_engine' fuel v
    = (o, {| target := a; registry := transactionSchemas v |})
    ∧ o ≠ Diverge
    ∧ (o = Ok tt →
       options a = options (instantiateAjv' tolerant_options)
       ∧ keywords_of a = ajvKeywords ++ keywords
       ∧ formats_of a = formats
       ∧ (∀ k t, (k, t) ∈ JsMap.entries (transactionSchemas v) → applied k t a)
       ∧ (JsMap.entries (transactionSchemas v) ≠ [] →
          store a !! "transactions"
          = Some (SArray (composite (JsMap.keys (transactionSchemas v)))))).
Proof.
  intros (Hwf & Hnodup & Hfree & Hplain) Hfuel.
  destruct (reapply_separate (transactionSchemas v) Hwf Hnodup Hplain
              (transactionSchemas v) [] (instantiateAjv' tolerant_options) fuel)
    as (o & a & Hrun & Hend & Hok).
  - done.
  - done.
  - intros k t Hin. by apply elem_of_nil in Hin.
  - intros x Hx. rewrite Forall_forall in Hfree.
    destruct tolerant_engine_fresh as [-> _]. by apply Hfree.
  - done.
  - by exists o, a.
Qed.

(** *** Which engine a call works on *)

(** A method that is handed an engine made during the call leaves the
    default engine alone, whatever it does to the engine it is handed. *)
Lemma on_engine_made {A} (n : nat) (m : M Extending A) (s : Running) :
  ajv (this (world (on_engine (MadeAjv n) m s).2)) = ajv (this (world s)).
Proof.
  unfold on_engine. cbn [deref].
  destruct (made s !! n) as [a|]; [|done].
  by destruct (m _) as [o e].
Qed.

(** The reference [new Ajv] gives is never the default engine. *)
Lemma allocate_made (a : Ajv) (s : Running) :
  ∃ n, (allocate a s).1 = Ok (MadeAjv n)
       ∧ world (allocate a s).2 = world s
       ∧ made (allocate a s).2 !! n = Some a.
Proof.
  exists (length (made s)). unfold allocate. cbn. split_and!; try done.
  by apply list_lookup_middle.
Qed.

(** C8: a call of [validateException] leaves the default engine of the
    instance as it was, whatever the outcome of the call: its loop works on
    an engine made for the call.  When the call returns, its check has run
    on such an engine, with [allErrors] and [verbose] set; if moreover the
    registry is separate, that engine holds the three variants of every
    registered type and the instance as a whole is as before. *)
Theorem validateException_isolated (fuel : nat) (schemaKeyRef : SchemaKeyRef)
    (d : T) (w : World) :
  ajv (this (validateException' fuel schemaKeyRef d w).2) = ajv (this w)
  ∧ ∀ r w',
      validateException' fuel schemaKeyRef d w = (Ok r, w') →
      ∃ a,
        r = validateSchema check errorsText a schemaKeyRef d
        ∧ options a !! "allErrors" = Some (OBool true)
        ∧ options a !! "verbose" = Some (OBool true)
        ∧ (separate schemas (transactionSchemas (this w)) →
           length (transactionSchemas (this w)) < fuel →
           (∀ k t, (k, t) ∈ JsMap.entries (transactionSchemas (this w)) →
                   applied k t a)
           ∧ w' = {| this := this w;
                     trace := trace w ++ [EvValidateException schemaKeyRef] |}).
Proof.
  split.
  - unfold validateException, bind at 1, emit, modify, method.
    set (w0 := {| this := this w;
                  trace := trace w ++ [EvValidateException schemaKeyRef] |}).
    set (s0 := {| world := w0; made := [] |}).
    destruct (allocate_made (instantiateAjv' tolerant_options) s0)
      as (n & Hr & Hw & _).
    unfold bind at 1.
    destruct (allocate (instantiateAjv' tolerant_options) s0) as [o s1].
    cbn [fst snd] in Hr, Hw. subst o.
    pose proof (on_engine_made n (reapply' fuel 0) s1) as Hframe.
    unfold bind at 1.
    destruct (on_engine (MadeAjv n) (reapply' fuel 0) s1) as [[[]| |] s2];
      cbn [fst snd] in *; try (by rewrite Hframe, Hw).
    unfold bind, use, ret.
    destruct (deref (MadeAjv n) s2); cbn [fst snd]; by rewrite Hframe, Hw.
  - intros r w'. rewrite validateException_unfold. cbn zeta.
    destruct (tolerant_engine' fuel (this w)) as [o s] eqn:Hrun.
    cbn [fst snd]. destruct o as [[]| |]; [|done..].
    intros [= <- <-]. exists (target s).
    pose proof (reapply_setup schemas engine fuel 0
                  {| target := instantiateAjv' tolerant_options;
                     registry := transactionSchemas (this w) |}) as (Ho & _).
    fold (tolerant_engine' fuel (this w)) in Ho. rewrite Hrun in Ho.
    cbn [snd target] in Ho. rewrite Ho.
    split_and!; try done.
    intros Hsep Hfuel.
    destruct (tolerant_engine_separate fuel (this w) Hsep Hfuel)
      as (o & a & Hrun' & _ & Hok).
    rewrite Hrun in Hrun'. injection Hrun' as <- ->.
    destruct (Hok eq_refl) as (_ & _ & _ & Happ & _).
    split; [done|]. cbn [registry]. by destruct w as [[a0 m0] tr].
Qed.

End TolerantEngineFacts.
(** ** The scenario *)

Section ScenarioFacts.

Import Scenario.

Lemma schemas_block :
  Scenario.schemas !! "block" = Some (SOther "block" "blockHeader & transactions").
Proof. reflexivity. Qed.

Lemma applySchema_block_error_fatal_scenario :
  (run (Checked (Some [at_block])) (Checked (Some [at_block])) []
     (record (Some [bad]))).1
  = Throw (BlockSchemaError 5
             "Invalid data at .numberOfTransactions: should be integer: 1.5").
Proof.
  refine (f_equal fst
            (applySchema_block_error_fatal Scenario.schemas ajvKeywords keywords
               formats Scenario.engine (check (Checked (Some [at_block])) (Checked (Some [at_block])))
               Scenario.errorsText (exempt []) Scenario.JSON_stringify 2
               registered (after_passes registered tolerant)
               (record (Some [bad])) (record (Some [bad])) (record (Some [bad]))
               {| value := Some (record (Some [bad]));
                  error := Some "data.numberOfTransactions should be integer";
                  errors := Some [at_block] |}
               {| value := Some (record (Some [bad]));
                  error := Some "data.numberOfTransactions should be integer";
                  errors := Some [at_block] |}
               tolerant [] [] at_block _ _ _ _ _ _ _ _));
    try (vm_compute; reflexivity).
  apply match_transactions_None. vm_compute; reflexivity.
Defined.

Lemma applySchema_strict_success_scenario :
  run (Checked None) (Checked None) [] (record (Some [bad]))
  = (Ok (Some (record (Some [bad]))),
     {| this := this registered; trace := [EvValidate (KeyRef "block")] |}).
Proof.
  refine (applySchema_strict_success Scenario.schemas ajvKeywords keywords
            formats Scenario.engine (check (Checked None) (Checked None)) Scenario.errorsText
            (exempt []) Scenario.JSON_stringify 2
            (record (Some [bad])) (record (Some [bad])) (record (Some [bad]))
            registered
            {| value := Some (record (Some [bad])); error := None; errors := None |}
            _ _ _);
    vm_compute; reflexivity.
Defined.

Lemma applySchema_tolerant_engine_failure_scenario :
  run (Checked (Some [at_transaction])) (Thrown None) []
    (record (Some [bad]))
  = (Ok None, after_passes registered tolerant).
Proof.
  refine (applySchema_tolerant_engine_failure Scenario.schemas ajvKeywords
            keywords formats Scenario.engine
            (check (Checked (Some [at_transaction])) (Thrown None))
            Scenario.errorsText (exempt []) Scenario.JSON_stringify 2
            (record (Some [bad])) (record (Some [bad])) (record (Some [bad]))
            registered
            {| value := Some (record (Some [bad]));
               error := Some "data.transactions[0].amount should be >= 1";
               errors := Some [at_transaction] |}
            tolerant None _ _ _ _);
    vm_compute; reflexivity.
Defined.

(** The engine's own error for a reference it cannot resolve has no
    stack: the outcome has no summary, and [applySchema] takes the strict
    pass for a success. *)
Lemma validate_outcome_scenario :
  (validate (check (Thrown None) (Checked None)) Scenario.errorsText
     (KeyRef "block") (record None) registered).1
  = Ok (record None, {| value := None; error := None; errors := Some [] |})
  ∧ (validate (check (Thrown (Some "Error: no schema")) (Checked None))
       Scenario.errorsText (KeyRef "block") (record None) registered).1
    = Ok (record None,
          {| value := None; error := Some "Error: no schema";
             errors := Some [] |})
  ∧ (validate (check (Checked None) (Checked None)) Scenario.errorsText
       (KeyRef "block") (record None) registered).1
    = Ok (record None,
          {| value := Some (record None); error := None; errors := None |}).
Proof.
  split_and!.
  - apply (proj1 (proj2 (validate_outcome
                           (check (Thrown None) (Checked None))
                           Scenario.errorsText (KeyRef "block") (record None)
                           (record None) registered))).
    vm_compute; reflexivity.
  - apply (proj1 (validate_outcome
                    (check (Thrown (Some "Error: no schema")) (Checked None))
                    Scenario.errorsText (KeyRef "block") (record None)
                    (record None) registered)).
    vm_compute; reflexivity.
  - apply (proj2 (proj2 (validate_outcome (check (Checked None) (Checked None))
                           Scenario.errorsText (KeyRef "block") (record None)
                           (record None) registered))).
    vm_compute; reflexivity.
Defined.

(** The error of the scenario: the transaction is not an exception, and
    the failure names the height 5. *)
Lemma applySchema_transaction_error_scenario :
  (run (Checked (Some [at_transaction])) (Checked (Some [at_transaction])) []
     (record (Some [bad]))).1
  = Throw (BlockSchemaError 5
             "Invalid data at .transactions[0].amount: should be >= 1: -1").
Proof.
  destruct (applySchema_transaction_error Scenario.schemas ajvKeywords keywords
              formats Scenario.engine
              (check (Checked (Some [at_transaction])) (Checked (Some [at_transaction])))
              Scenario.errorsText (exempt []) Scenario.JSON_stringify 2
              registered (after_passes registered tolerant)
              (record (Some [bad])) (record (Some [bad])) (record (Some [bad]))
              {| value := Some (record (Some [bad]));
                 error := Some "data.transactions[0].amount should be >= 1";
                 errors := Some [at_transaction] |}
              {| value := Some (record (Some [bad]));
                 error := Some "data.transactions[0].amount should be >= 1";
                 errors := Some [at_transaction] |}
              tolerant [] [] at_transaction ltac:(vm_compute; reflexivity) ltac:(vm_compute; reflexivity) ltac:(vm_compute; reflexivity) ltac:(vm_compute; reflexivity) ltac:(vm_compute; reflexivity) ltac:(vm_compute; reflexivity)
              "0" [bad] bad ltac:(vm_compute; reflexivity) ltac:(vm_compute; reflexivity) ltac:(vm_compute; reflexivity))
    as (_ & _ & Hfatal).
  exact (f_equal fst (Hfatal "bad" eq_refl eq_refl)).
Defined.

(** C2 fails on the code for a block without an array of transactions:
    the path matches, no identifier is an exception, and yet the error is
    not fatal and the record is accepted. *)
Lemma transaction_error_without_transactions :
  Path.match_transactions (dataPath at_transaction) = Some "0"
  ∧ transactions (record None) = None
  ∧ (∀ i, exempt [] i = false)
  ∧ (classify (exempt []) (record None) at_transaction registered).1 = Ok false
  ∧ (run (Checked (Some [at_transaction])) (Checked (Some [at_transaction])) []
       (record None)).1
    = Ok (Some (record None)).
Proof.
  split_and!; try (vm_compute; reflexivity).
  intros [i|]; [|done]. apply bool_decide_eq_false_2, not_elem_of_nil.
Qed.

Lemma applySchema_transaction_missing_scenario :
  (run (Checked (Some [at_transaction])) (Checked (Some [at_transaction])) []
     (record (Some []))).1
  = Throw (TypeError "Cannot read property 'id' of undefined")
  ∧ classify (exempt []) (record None) at_transaction
      (after_passes registered tolerant)
    = (Ok false, after_passes registered tolerant).
Proof.
  split.
  - destruct (applySchema_transaction_missing Scenario.schemas ajvKeywords
                keywords formats Scenario.engine
                (check (Checked (Some [at_transaction])) (Checked (Some [at_transaction])))
                Scenario.errorsText (exempt []) Scenario.JSON_stringify 2
                registered (after_passes registered tolerant)
                (record (Some [])) (record (Some [])) (record (Some []))
                {| value := Some (record (Some []));
                   error := Some "data.transactions[0].amount should be >= 1";
                   errors := Some [at_transaction] |}
                {| value := Some (record (Some []));
                   error := Some "data.transactions[0].amount should be >= 1";
                   errors := Some [at_transaction] |}
                tolerant [] [] at_transaction ltac:(vm_compute; reflexivity) ltac:(vm_compute; reflexivity) ltac:(vm_compute; reflexivity) ltac:(vm_compute; reflexivity) ltac:(vm_compute; reflexivity) ltac:(vm_compute; reflexivity) "0" ltac:(vm_compute; reflexivity))
      as (Hcrash & _).
    exact (f_equal fst (Hcrash [] eq_refl eq_refl)).
  - destruct (applySchema_transaction_missing Scenario.schemas ajvKeywords
                keywords formats Scenario.engine
                (check (Checked (Some [at_transaction])) (Checked (Some [at_transaction])))
                Scenario.errorsText (exempt []) Scenario.JSON_stringify 2
                registered (after_passes registered tolerant)
                (record None) (record None) (record None)
                {| value := Some (record None);
                   error := Some "data.transactions[0].amount should be >= 1";
                   errors := Some [at_transaction] |}
                {| value := Some (record None);
                   error := Some "data.transactions[0].amount should be >= 1";
                   errors := Some [at_transaction] |}
                tolerant [] [] at_transaction ltac:(vm_compute; reflexivity) ltac:(vm_compute; reflexivity) ltac:(vm_compute; reflexivity) ltac:(vm_compute; reflexivity) ltac:(vm_compute; reflexivity) ltac:(vm_compute; reflexivity) "0" ltac:(vm_compute; reflexivity))
      as (_ & Hskip).
    exact (proj1 (Hskip eq_refl)).
Defined.

Lemma extendTransaction_composite_scenario :
  store (ajv (this registered)) !! "transactions"
  = Some (SArray
            {| array_id := "transactions";
               array_type := "array";
               additionalItems := false;
               items_anyOf := [{| ref := "transferSigned" |}] |}).
Proof.
  refine (extendTransaction_composite Scenario.schemas Scenario.engine
            transfer false fresh registered _).
  vm_compute; reflexivity.
Defined.

(** C6 fails on the code after a call that throws: [extendTransaction] for
    "voteSigned" returns, and [extendTransaction] for "vote" then sets the
    entry of the registry, adds the base schema, and throws when it adds the
    signed variant, whose key is taken.  The registry has two keys, and the
    composite schema still has the one branch it had. *)
Lemma composite_stale_after_throw :
  (register Edge.voteSigned false fresh).1 = Ok tt
  ∧ (register vote false (register Edge.voteSigned false fresh).2).1
    = Throw (Engine.already_exists "voteSigned")
  ∧ JsMap.keys (transactionSchemas (this Edge.stale)) = ["voteSigned"; "vote"]
  ∧ store (ajv (this Edge.stale)) !! "transactions"
    = Some (SArray (composite ["voteSigned"]))
  ∧ store (ajv (this Edge.stale)) !! "transactions"
    ≠ Some (SArray (composite (JsMap.keys (transactionSchemas (this Edge.stale))))).
Proof. vm_compute. split_and!; try reflexivity. discriminate. Qed.

(** C3 fails on the code: after [extendTransaction(transfer, true)] on the
    instance that has "transfer" registered, the type is still in the
    registry, its three variants are in the engine and its branch is in the
    composite schema. *)
Lemma remove_flag_keeps_type :
  let w' := register transfer true registered in
  w'.1 = Ok tt
  ∧ JsMap.keys (transactionSchemas (this w'.2)) = ["transfer"]
  ∧ store (ajv (this w'.2)) !! "transfer" = Some (SBase transfer)
  ∧ store (ajv (this w'.2)) !! "transferSigned" = Some (SSigned transfer)
  ∧ store (ajv (this w'.2)) !! "transferStrict" = Some (SStrict transfer)
  ∧ store (ajv (this w'.2)) !! "transactions"
    = Some (SArray (composite ["transfer"])).
Proof. vm_compute. repeat split. Qed.

Lemma extendTransaction_remove_replaces_scenario :
  JsMap.keys (transactionSchemas (this (register transfer' true registered).2))
  = ["transfer"]
  ∧ store (ajv (this (register transfer' true registered).2)) !! "transferSigned"
    = Some (SSigned transfer').
Proof.
  destruct (extendTransaction_remove_replaces Scenario.schemas Scenario.engine
              (SOther "block" "blockHeader & transactions")
              schemas_block eq_refl transfer' registered
              (register transfer' true registered).2
              ltac:(vm_compute; reflexivity))
    as (Hkeys & Hsigned & _).
  split; [exact Hkeys | exact Hsigned].
Defined.



Lemma registered_separate :
  separate Scenario.schemas (transactionSchemas (this registered)).
Proof.
  unfold separate. split_and!.
  - vm_compute. by repeat constructor.
  - refine (bool_decide_unpack _ _). vm_compute. exact I.
  - vm_compute. by repeat constructor.
  - vm_compute. by repeat constructor.
Qed.

Lemma validateException_isolated_scenario :
  ajv (this (validateException Scenario.schemas ajvKeywords keywords formats
               Scenario.engine
               (check (Checked None) (Checked (Some [at_transaction])))
               Scenario.errorsText 2 (KeyRef "block") (record (Some [bad]))
               registered).2)
  = ajv (this registered)
  ∧ ∃ a,
      (validateException Scenario.schemas ajvKeywords keywords formats
         Scenario.engine
         (check (Checked None) (Checked (Some [at_transaction])))
         Scenario.errorsText 2 (KeyRef "block") (record (Some [bad]))
         registered).1
      = Ok (validateSchema (check (Checked None) (Checked (Some [at_transaction])))
              Scenario.errorsText a (KeyRef "block") (record (Some [bad])))
      ∧ options a !! "verbose" = Some (OBool true)
      ∧ applied "transfer" transfer a.
Proof.
  destruct (validateException_isolated Scenario.schemas ajvKeywords keywords
              formats Scenario.engine
              (SOther "block" "blockHeader & transactions")
              schemas_block eq_refl
              (check (Checked None) (Checked (Some [at_transaction])))
              Scenario.errorsText 2 (KeyRef "block") (record (Some [bad]))
              registered)
    as (Hframe & Hfresh).
  split; [exact Hframe|].
  destruct (validateException Scenario.schemas ajvKeywords keywords formats
              Scenario.engine
              (check (Checked None) (Checked (Some [at_transaction])))
              Scenario.errorsText 2 (KeyRef "block") (record (Some [bad]))
              registered) as [o w'] eqn:Hrun.
  assert (Hok : ∃ r, o = Ok r).
  { apply (f_equal fst) in Hrun. vm_compute in Hrun. subst o. by eexists. }
  destruct Hok as [r ->].
  destruct (Hfresh r w' eq_refl) as (a & -> & _ & Hverbose & Hsep).
  exists a. split_and!; [done|exact Hverbose|].
  destruct (Hsep registered_separate ltac:(vm_compute; lia)) as [Happ _].
  apply Happ. vm_compute. left.
Defined.

(** The record of the scenario is accepted when "bad" is an exception. *)
Example scenario_exempt :
  run (Checked (Some [at_transaction])) (Checked (Some [at_transaction]))
    ["bad"] (record (Some [bad]))
  = (Ok (Some (record (Some [bad]))),
     logged (after_passes registered tolerant) (EvIsException (Some "bad"))).
Proof. vm_compute. reflexivity. Qed.

(** A transaction without identifier is fatal even for an oracle that
    exempts everything, and the oracle is not asked. *)
Example scenario_anonymous :
  applySchema Scenario.schemas ajvKeywords keywords formats Scenario.engine
    (check (Checked (Some [at_transaction])) (Checked (Some [at_transaction])))
    Scenario.errorsText (λ _, true) Scenario.JSON_stringify 2
    (record (Some [anonymous])) registered
  = (Throw (BlockSchemaError 5
              "Invalid data at .transactions[0].amount: should be >= 1: -1"),
     after_passes registered tolerant).
Proof. vm_compute. reflexivity. Qed.

(** Registering a type again moves it behind the types registered since. *)
Example scenario_order :
  let w2 := (register vote false registered).2 in
  let w3 := (register transfer' false w2).2 in
  JsMap.keys (transactionSchemas (this w2)) = ["transfer"; "vote"]
  ∧ JsMap.keys (transactionSchemas (this w3)) = ["vote"; "transfer"]
  ∧ store (ajv (this w3)) !! "transactions"
    = Some (SArray (composite ["vote"; "transfer"])).
Proof. vm_compute. repeat split. Qed.

End ScenarioFacts.
(** * Further properties *)

(** ** What the loop of the tolerant pass throws *)

Section ThrowFacts.

Variable schemas : gmap string Schema.
Variable engine : Engine.Behaviour.

Lemma reapply_throws (fuel i : nat) (s s' : Extending) (e : Exn) :
  reapply schemas engine fuel i s = (Throw e, s') →
  ∀ h m, e ≠ BlockSchemaError h m.
Proof.
  revert i s. induction fuel as [|fuel IH]; intros i s; [done|].
  cbn [reapply]. destruct (registry s !! i) as [[[k t]|]|]; [| |done].
  - unfold bind.
    destruct (extendTransactionSchema schemas engine t false s)
      as [[[]| |] s1] eqn:H1.
    + apply IH.
    + intros [= <- _]. by apply (extendTransactionSchema_throws _ _ _ _ _ _ _ H1).
    + done.
  - apply IH.
Qed.

End ThrowFacts.

(** ** The outcomes of [applySchema] *)

Section OutcomeFacts.

Context {Value : Type}.
Variable schemas : gmap string Schema.
Variables ajvKeywords keywords formats : list string.
Variable engine : Engine.Behaviour.
Variable check : Ajv → SchemaKeyRef → IBlockData → IBlockData * CheckOutcome Value.
Variable errorsText : list (ErrorObject Value) → string.
Variable isException : option string → bool.
Variable JSON_stringify : Value → string.

Local Abbreviation applySchema' :=
  (applySchema schemas ajvKeywords keywords formats engine check errorsText
     isException JSON_stringify).
Local Abbreviation classify' := (classify isException).
Local Abbreviation classify_all' := (classify_all isException JSON_stringify).
Local Abbreviation verdict' := (verdict isException).
Local Abbreviation what' := (what JSON_stringify).
Local Abbreviation strict_pass w d :=
  (validateSchema check errorsText (ajv (this w)) (KeyRef "block") d).
Local Abbreviation tolerant_pass s d :=
  (validateSchema check errorsText (target s) (KeyRef "block") d).
Local Abbreviation tolerant_engine' :=
  (tolerant_engine schemas ajvKeywords keywords formats engine).

Lemma recorded_nil (w : World) : recorded w [] = w.
Proof. destruct w as [v tr]. unfold recorded. cbn. by rewrite app_nil_r. Qed.

Lemma recorded_app (w : World) (e1 e2 : list Event) :
  recorded (recorded w e1) e2 = recorded w (e1 ++ e2).
Proof. unfold recorded. cbn. by rewrite (assoc_L (++)). Qed.

(** The body of the loop decides as [verdict] says, and asks the oracle
    what [asked] says. *)
Lemma classify_verdict (d : IBlockData) (err : ErrorObject Value) (w : World) :
  classify' d err w
  = match verdict' d err with
    | Tolerated => (Ok false, recorded w (asked d err))
    | Fatal => (Ok true, recorded w (asked d err))
    | Crash => (Throw (TypeError "Cannot read property 'id' of undefined"), w)
    end.
Proof.
  unfold classify, verdict, asked, bind.
  destruct (Path.match_transactions (dataPath err)) as [txIndex|].
  - destruct (transactions d) as [txs|]; [|by rewrite recorded_nil].
    destruct (Path.array_get txs txIndex) as [tx|]; [|done].
    destruct (tx_id tx) as [i|]; [|by rewrite recorded_nil].
    rewrite askException_unfold. by destruct (isException (Some i)).
  - rewrite askException_unfold. by destruct (isException (id d)).
Qed.

Lemma classify_all_tolerated (d : IBlockData) (errs : list (ErrorObject Value))
    (w : World) :
  Forall (λ e, verdict' d e = Tolerated) errs →
  classify_all' d errs w = (Ok tt, recorded w (errs ≫= asked d)).
Proof.
  revert w. induction errs as [|e errs IH]; intros w Hall.
  - cbn. by rewrite recorded_nil.
  - apply Forall_cons in Hall as [He Hall]. cbn [classify_all]. unfold bind.
    rewrite classify_verdict, He, (IH _ Hall), recorded_app.
    by rewrite bind_cons.
Qed.

(** The loop throws the structured failure for the first error that is not
    tolerated, when that one is fatal. *)
Lemma classify_all_failure (d : IBlockData) (errs : list (ErrorObject Value))
    (w w' : World) (h : Z) (m : string) :
  classify_all' d errs w = (Throw (BlockSchemaError h m), w') →
  ∃ pre err post,
    errs = pre ++ err :: post
    ∧ Forall (λ e, verdict' d e = Tolerated) pre
    ∧ verdict' d err = Fatal
    ∧ h = height d
    ∧ m = what' err
    ∧ w' = recorded w ((pre ++ [err]) ≫= asked d).
Proof.
  revert w. induction errs as [|e errs IH]; intros w; [done|].
  cbn [classify_all]. unfold bind. rewrite classify_verdict.
  destruct (verdict' d e) eqn:He; [| |done].
  - intros (pre & err & post & -> & Hpre & Herr & -> & -> & ->)%IH.
    exists (e :: pre), err, post. split_and!; try done.
    + by constructor.
    + by rewrite recorded_app.
  - intros [= <- <- <-]. exists [], e, errs. split_and!; try done.
    cbn. by rewrite app_nil_r.
Qed.

(** The loop never runs out of fuel and never touches the instance. *)
Lemma classify_all_this (d : IBlockData) (errs : list (ErrorObject Value))
    (w : World) :
  (classify_all' d errs w).1 ≠ Diverge
  ∧ this (classify_all' d errs w).2 = this w.
Proof.
  revert w. induction errs as [|e errs IH]; intros w; [done|].
  cbn [classify_all]. unfold bind. rewrite classify_verdict.
  destruct (verdict' d e); [|done..].
  destruct (IH (recorded w (asked d e))) as [H1 H2]. by rewrite H2.
Qed.

(** X2: when the strict pass fails and the tolerant pass reports no
    structured errors, [applySchema] returns the value of the tolerant pass
    without consulting the oracle. *)
Theorem applySchema_tolerant_clean (fuel : nat) (d d1 d2 : IBlockData)
    (w : World) (r1 r2 : ISchemaValidationResult Value IBlockData)
    (s : Extending) :
  strict_pass w d = (d1, r1) →
  truthy (error r1) = true →
  tolerant_engine' fuel (this w) = (Ok tt, s) →
  tolerant_pass s d1 = (d2, r2) →
  errors r2 = None →
  applySchema' fuel d w = (Ok (value r2), after_passes w s).
Proof.
  intros Hs He Ht Hv Hn.
  by rewrite (applySchema_tolerant _ _ _ _ _ _ _ _ _ fuel d d1 d2 w r1 r2 s
                Hs He Ht Hv), Hn.
Qed.

(** X3: when every error of the tolerant pass is tolerated, [applySchema]
    returns the value of the tolerant pass; the oracle has been asked once
    for each error that names the block or a transaction with an
    identifier, in the order of the errors. *)
Theorem applySchema_all_tolerated (fuel : nat) (d d1 d2 : IBlockData)
    (w : World) (r1 r2 : ISchemaValidationResult Value IBlockData)
    (s : Extending) (errs : list (ErrorObject Value)) :
  strict_pass w d = (d1, r1) →
  truthy (error r1) = true →
  tolerant_engine' fuel (this w) = (Ok tt, s) →
  tolerant_pass s d1 = (d2, r2) →
  errors r2 = Some errs →
  Forall (λ e, verdict' d2 e = Tolerated) errs →
  applySchema' fuel d w
  = (Ok (value r2), recorded (after_passes w s) (errs ≫= asked d2)).
Proof.
  intros Hs He Ht Hv Hn Hall.
  rewrite (applySchema_tolerant _ _ _ _ _ _ _ _ _ fuel d d1 d2 w r1 r2 s
             Hs He Ht Hv), Hn.
  unfold bind. by rewrite (classify_all_tolerated _ _ _ Hall).
Qed.

(** X4: [applySchema] throws the structured failure only when the strict
    pass failed, the tolerant pass produced errors, and the first error
    that is not tolerated is fatal; the failure carries the height of the
    record and the text for that error, and the oracle was asked about the
    errors up to that one only. *)
Theorem applySchema_failure_origin (fuel : nat) (d : IBlockData) (w w' : World)
    (h : Z) (m : string) :
  applySchema' fuel d w = (Throw (BlockSchemaError h m), w') →
  let d1 := (strict_pass w d).1 in
  let r1 := (strict_pass w d).2 in
  let s := (tolerant_engine' fuel (this w)).2 in
  let d2 := (tolerant_pass s d1).1 in
  let r2 := (tolerant_pass s d1).2 in
  truthy (error r1) = true
  ∧ (tolerant_engine' fuel (this w)).1 = Ok tt
  ∧ ∃ pre err post,
      errors r2 = Some (pre ++ err :: post)
      ∧ Forall (λ e, verdict' d2 e = Tolerated) pre
      ∧ verdict' d2 err = Fatal
      ∧ h = height d2
      ∧ m = what' err
      ∧ w' = recorded (after_passes w s) ((pre ++ [err]) ≫= asked d2).
Proof.
  intros H. cbn zeta.
  destruct (strict_pass w d) as [d1 r1] eqn:Hs.
  destruct (truthy (error r1)) eqn:He.
  2:{ by rewrite (applySchema_strict _ _ _ _ _ _ _ _ _ fuel d d1 w r1 Hs He) in H. }
  destruct (tolerant_engine' fuel (this w)) as [o s] eqn:Ht. cbn [fst snd].
  destruct o as [[]| |].
  - destruct (tolerant_pass s d1) as [d2 r2] eqn:Hv. cbn [fst snd].
    rewrite (applySchema_tolerant _ _ _ _ _ _ _ _ _ fuel d d1 d2 w r1 r2 s
               Hs He Ht Hv) in H.
    destruct (errors r2) as [errs|]; [|done].
    unfold bind in H.
    destruct (classify_all' d2 errs (after_passes w s)) as [[[]|e|] w3] eqn:Hc;
      try done.
    injection H as -> ->.
    apply classify_all_failure in Hc
      as (pre & err & post & -> & Hpre & Herr & -> & -> & ->).
    split_and!; try done. by exists pre, err, post.
  - exfalso. revert H. unfold applySchema, bind at 1.
    rewrite validate_unfold, Hs, He. cbn [negb]. unfold bind at 1.
    rewrite validateException_unfold. cbn [this trace]. rewrite Ht. cbn.
    intros [= -> _]. by apply (reapply_throws _ _ _ _ _ _ _ Ht h m).
  - exfalso. revert H. unfold applySchema, bind at 1.
    rewrite validate_unfold, Hs, He. cbn [negb]. unfold bind at 1.
    rewrite validateException_unfold. cbn [this trace]. by rewrite Ht.
Qed.

(** X15: when the check of the strict pass throws a value without a stack,
    the outcome has no summary, and [applySchema] returns without a value
    after the strict pass alone: the tolerant pass does not run and the
    oracle is not asked. *)
Theorem applySchema_stackless_throw (fuel : nat) (d d1 : IBlockData)
    (w : World) :
  check (ajv (this w)) (KeyRef "block") d = (d1, Thrown None) →
  applySchema' fuel d w = (Ok None, logged w (EvValidate (KeyRef "block"))).
Proof.
  intros Hc.
  apply (applySchema_strict _ _ _ _ _ _ _ _ _ fuel d d1 w
           {| value := None; error := None; errors := Some [] |}); [|done].
  unfold validateSchema. by rewrite Hc.
Qed.

End OutcomeFacts.

(** ** The registry under [extendTransactionSchema] *)

Section RegistryEffects.

Variable schemas : gmap string Schema.
Variable engine : Engine.Behaviour.

Local Abbreviation extendTransactionSchema' :=
  (extendTransactionSchema schemas engine).
Local Abbreviation extendTransaction' := (extendTransaction schemas engine).

Lemma entries_cons_Some {V} (k : string) (v : V) (m : JsMap.t V) :
  JsMap.entries (Some (k, v) :: m) = (k, v) :: JsMap.entries m.
Proof. reflexivity. Qed.

Lemma entries_cons_None {V} (m : JsMap.t V) :
  JsMap.entries (None :: m) = JsMap.entries m.
Proof. reflexivity. Qed.

Lemma entries_app {V} (m1 m2 : JsMap.t V) :
  JsMap.entries (m1 ++ m2) = JsMap.entries m1 ++ JsMap.entries m2.
Proof. apply omap_app. Qed.

Lemma Forall_entries_delete {V} (P : string * V → Prop) (k : string)
    (m : JsMap.t V) :
  Forall P (JsMap.entries m) → Forall P (JsMap.entries (JsMap.delete k m)).
Proof.
  unfold JsMap.delete. induction m as [|[[k' v']|] m IH]; [done| |];
    cbn [fmap list_fmap JsMap.delete_slot];
    rewrite ?entries_cons_Some, ?entries_cons_None; [|done].
  intros [Hh Ht]%Forall_cons. destruct (decide (k' = k)).
  - rewrite entries_cons_None. by apply IH.
  - rewrite entries_cons_Some. constructor; [done|by apply IH].
Qed.

Lemma Forall_entries_set {V} (P : string * V → Prop) (k : string) (v : V)
    (m : JsMap.t V) :
  P (k, v) → Forall P (JsMap.entries m) →
  Forall P (JsMap.entries (JsMap.set k v m)).
Proof.
  intros Hkv. unfold JsMap.set. destruct (JsMap.has k m).
  - induction m as [|[[k' v']|] m IH]; [done| |];
      cbn [fmap list_fmap JsMap.set_slot];
      rewrite ?entries_cons_Some, ?entries_cons_None; [|done].
    intros [Hh Ht]%Forall_cons. destruct (decide (k' = k));
      rewrite entries_cons_Some; constructor; try done; by apply IH.
  - intros Hall. rewrite entries_app. apply Forall_app. split; [done|].
    by repeat constructor.
Qed.

(** After [set] the map holds the value under the key. *)
Lemma entries_set {V} (k : string) (v : V) (m : JsMap.t V) :
  (k, v) ∈ JsMap.entries (JsMap.set k v m).
Proof.
  unfold JsMap.set, JsMap.has. case_bool_decide as Hin.
  - induction m as [|[[k' v']|] m IH]; [by apply elem_of_nil in Hin| |];
      cbn [fmap list_fmap JsMap.set_slot] in *.
    + rewrite keys_cons_Some in Hin. destruct (decide (k' = k)) as [->|Hne];
        rewrite entries_cons_Some; [left|].
      right. apply IH. apply elem_of_cons in Hin as [->|Hin]; done.
    + rewrite entries_cons_None. apply IH. by rewrite keys_cons_None in Hin.
  - rewrite entries_app, elem_of_app. right. cbn. left.
Qed.

Lemma NoDup_keys_delete {V} (k : string) (m : JsMap.t V) :
  NoDup (JsMap.keys m) → NoDup (JsMap.keys (JsMap.delete k m)).
Proof. rewrite keys_delete. apply NoDup_filter. Qed.

Lemma NoDup_keys_set {V} (k : string) (v : V) (m : JsMap.t V) :
  NoDup (JsMap.keys m) → NoDup (JsMap.keys (JsMap.set k v m)).
Proof.
  intros Hnd. rewrite keys_set. case_bool_decide as Hin; [done|].
  apply NoDup_app. split_and!; [done| |apply NoDup_singleton].
  intros x Hx ->%list_elem_of_singleton. done.
Qed.

Lemma well_keyed_prepared (t : TransactionSchema) (remove : bool)
    (s : Extending) :
  well_keyed (registry s) → well_keyed (registry (prepared t remove s)).
Proof.
  intros [Hk Hnd]. unfold prepared. cbn [registry].
  destruct (removes remove (schema_id t) (target s)); split.
  - apply Forall_entries_set; [done|]. by apply Forall_entries_delete.
  - by apply NoDup_keys_set, NoDup_keys_delete.
  - by apply Forall_entries_set.
  - by apply NoDup_keys_set.
Qed.

Lemma extendTransactionSchema_well_keyed (t : TransactionSchema)
    (remove : bool) (s : Extending) :
  well_keyed (registry s) →
  well_keyed (registry (extendTransactionSchema' t remove s).2).
Proof.
  intros Hwk. rewrite extendTransactionSchema_registry.
  destruct (Engine.getSchema engine (schema_id t) (target s)); [|done..].
  by apply well_keyed_prepared.
Qed.

Lemma reapply_well_keyed (fuel i : nat) (s : Extending) :
  well_keyed (registry s) →
  well_keyed (registry (reapply schemas engine fuel i s).2).
Proof.
  revert i s. induction fuel as [|fuel IH]; intros i s Hwk; [done|].
  cbn [reapply]. destruct (registry s !! i) as [[[k t]|]|]; [| |done].
  - unfold bind.
    pose proof (extendTransactionSchema_well_keyed t false s Hwk) as Hr.
    destruct (extendTransactionSchema' t false s) as [[[]| |] s1];
      cbn [snd] in *; [by apply IH|done..].
  - by apply IH.
Qed.

(** X5: whatever the outcome of [extendTransaction], the engine keeps its
    options, keywords and formats, and its store is the same at every key
    other than the three keys of the type, the key the engine files the id
    under, "block", "transactions" and the key of the block schema of the
    table. *)
Theorem extendTransaction_frame (t : TransactionSchema) (remove : bool)
    (w : World) :
  let w' := (extendTransaction' t remove w).2 in
  options (ajv (this w')) = options (ajv (this w))
  ∧ keywords_of (ajv (this w')) = keywords_of (ajv (this w))
  ∧ formats_of (ajv (this w')) = formats_of (ajv (this w))
  ∧ trace w' = trace w
  ∧ ∀ x, x ∉ variant_keys (schema_id t) →
         x ≠ Engine.normalizeId (schema_id t) →
         x ≠ "block" → x ≠ "transactions" →
         (∀ b, schemas !! "block" = Some b →
               x ≠ Engine.normalizeId (schema_key b)) →
         store (ajv (this w')) !! x = store (ajv (this w)) !! x.
Proof.
  cbn zeta. rewrite extendTransaction_unfold. cbn [snd this ajv trace].
  destruct (extendTransactionSchema_touches schemas engine t remove
              (extending (this w))) as (Ho & Hk & Hf & Hs).
  split_and!; try done.
  intros x Hv Hn Hb Ht Htable. apply Hs.
  rewrite !elem_of_app. intros [?|[Hin|Hin]]; [done| |].
  - apply elem_of_cons in Hin as [->|Hin]; [done|].
    apply elem_of_cons in Hin as [->|Hin]; [done|].
    by apply list_elem_of_singleton in Hin.
  - destruct (schemas !! "block") as [b|] eqn:Hsb;
      [|by apply elem_of_nil in Hin].
    apply list_elem_of_singleton in Hin. by apply (Htable b).
Qed.

(** X16: [extendTransactionSchema] asks the engine for the schema of the
    id before anything else.  When that call throws (the engine holds a
    schema under the key and cannot compile it), [extendTransaction]
    throws the same error and the instance is as before, with or without
    the [remove] flag: such a type cannot be replaced through
    [extendTransaction]. *)
Theorem extendTransaction_lookup_throws (t : TransactionSchema)
    (remove : bool) (w : World) (e : Exn) :
  Engine.getSchema engine (schema_id t) (ajv (this w)) = Throw e →
  extendTransaction' t remove w = (Throw e, w).
Proof.
  intros Hget. rewrite extendTransaction_unfold, extendTransactionSchema_unfold.
  unfold extending at 1. cbn [target]. rewrite Hget. cbn.
  by destruct w as [[a m] tr].
Qed.

(** A registration of a type the engine does not know, without the
    flag: nothing is removed, the entry is set, and the schemas are
    added. *)
Lemma extendTransaction_unknown (t : TransactionSchema) (w : World) :
  Engine.getSchema engine (schema_id t) (ajv (this w)) = Ok false →
  store (ajv (this w)) !! Engine.normalizeId (schema_id t) = None
  ∧ extendTransaction' t false w
    = handed_back w
        ((run! addSchema engine (SBase t) in
          run! addSchema engine (SSigned t) in
          run! addSchema engine (SStrict t) in
          updateTransactionArray schemas engine)
           {| target := ajv (this w);
              registry := JsMap.set (schema_id t) t
                            (transactionSchemas (this w)) |}).
Proof.
  intros Hget.
  assert (Hbase : store (ajv (this w)) !! Engine.normalizeId (schema_id t) = None).
  { revert Hget. unfold Engine.getSchema.
    destruct (store (ajv (this w)) !! _) as [x|]; [|done].
    by destruct (Engine.compile_error engine _ x). }
  split; [done|].
  assert (Hp : prepared t false (extending (this w))
               = {| target := ajv (this w);
                    registry := JsMap.set (schema_id t) t
                                  (transactionSchemas (this w)) |}).
  { unfold prepared, removes, extending. cbn [target registry].
    rewrite Hbase. cbn [cleared]. f_equal. by destruct (ajv (this w)). }
  rewrite extendTransaction_unfold, extendTransactionSchema_unfold.
  unfold extending at 1. cbn [target]. by rewrite Hget, Hp.
Qed.

(** X17: a registration whose base schema the engine does not accept
    throws the engine's error after the entry of the registry has been
    set: the registry has the type, and the engine is as before. *)
Theorem extendTransaction_rejected (t : TransactionSchema) (w : World)
    (what : string) :
  Engine.getSchema engine (schema_id t) (ajv (this w)) = Ok false →
  Engine.schema_error engine (ajv (this w)) (SBase t) = Some what →
  extendTransaction' t false w
  = (Throw (EngineError what),
     {| this :=
          {| ajv := ajv (this w);
             transactionSchemas :=
               JsMap.set (schema_id t) t (transactionSchemas (this w)) |};
        trace := trace w |}).
Proof.
  intros [Hbase ->]%extendTransaction_unknown Hrej.
  unfold bind at 1. rewrite addSchema_unfold.
  cbn [target registry schema_key]. by rewrite Hbase, Hrej.
Qed.

(** X7: a registration that finds the id unknown to the engine and has its
    base schema accepted, but finds the key of the signed variant taken,
    throws the engine's error for that key; so does one that has the signed
    variant accepted and finds the key of the strict variant taken.  By
    then the registry has the entry and the engine the schemas added so
    far, and the composite schema has not been rebuilt. *)
Theorem extendTransaction_variant_clash (t : TransactionSchema) (w : World) :
  Engine.getSchema engine (schema_id t) (ajv (this w)) = Ok false →
  Engine.schema_error engine (ajv (this w)) (SBase t) = None →
  (is_Some (store (ajv (this w)) !! (schema_id t +:+ "Signed")) →
   extendTransaction' t false w
   = (Throw (Engine.already_exists (schema_id t +:+ "Signed")),
      {| this :=
           {| ajv := Engine.set_store
                       (insert (Engine.normalizeId (schema_id t)) (SBase t))
                       (ajv (this w));
              transactionSchemas :=
                JsMap.set (schema_id t) t (transactionSchemas (this w)) |};
         trace := trace w |}))
  ∧ (store (ajv (this w)) !! (schema_id t +:+ "Signed") = None →
     Engine.schema_error engine
       (Engine.set_store (insert (Engine.normalizeId (schema_id t)) (SBase t))
          (ajv (this w)))
       (SSigned t) = None →
     is_Some (store (ajv (this w)) !! (schema_id t +:+ "Strict")) →
     extendTransaction' t false w
     = (Throw (Engine.already_exists (schema_id t +:+ "Strict")),
        {| this :=
             {| ajv := Engine.set_store
                         (insert (schema_id t +:+ "Signed") (SSigned t))
                         (Engine.set_store
                            (insert (Engine.normalizeId (schema_id t)) (SBase t))
                            (ajv (this w)));
                transactionSchemas :=
                  JsMap.set (schema_id t) t (transactionSchemas (this w)) |};
           trace := trace w |})).
Proof.
  intros [Hbase Hunfold]%extendTransaction_unknown Hacc. split.
  - intros [x Hx]. rewrite Hunfold.
    unfold bind at 1. rewrite addSchema_unfold.
    cbn [target registry schema_key]. rewrite Hbase, Hacc.
    unfold bind at 1. rewrite addSchema_unfold.
    cbn [target registry schema_key Engine.set_store store].
    rewrite normalizeId_signed.
    rewrite lookup_insert_ne, Hx by apply normalizeId_ne_signed.
    reflexivity.
  - intros Hsigned Hacc2 [x Hx]. rewrite Hunfold.
    unfold bind at 1. rewrite addSchema_unfold.
    cbn [target registry schema_key]. rewrite Hbase, Hacc.
    unfold bind at 1. rewrite addSchema_unfold.
    cbn [target registry schema_key Engine.set_store store].
    rewrite normalizeId_signed.
    rewrite lookup_insert_ne, Hsigned by apply normalizeId_ne_signed.
    rewrite Hacc2.
    unfold bind at 1. rewrite addSchema_unfold.
    cbn [target registry schema_key Engine.set_store store].
    rewrite normalizeId_strict.
    rewrite lookup_insert_ne by apply signed_ne_strict.
    rewrite lookup_insert_ne, Hx by apply normalizeId_ne_strict.
    reflexivity.
Qed.

End RegistryEffects.

(** ** Invariants and failures of registration *)

Section RegistrationFacts.

Context {Value T : Type}.
Variable schemas : gmap string Schema.
Variables ajvKeywords keywords formats : list string.
Variable engine : Engine.Behaviour.
Variable check : Ajv → SchemaKeyRef → T → T * CheckOutcome Value.
Variable errorsText : list (ErrorObject Value) → string.

Local Abbreviation extendTransactionSchema' :=
  (extendTransactionSchema schemas engine).
Local Abbreviation extendTransaction' := (extendTransaction schemas engine).
Local Abbreviation validateException' :=
  (validateException schemas ajvKeywords keywords formats engine check
     errorsText).

(** X6: the class keeps its registry well keyed: if every entry is filed
    under the [$id] of its schema and no key occurs twice, the same holds
    after [extendTransaction] and after [validateException], whether the
    call returns, throws or does not end. *)
Theorem registry_well_keyed (w : World) :
  well_keyed (transactionSchemas (this w)) →
  (∀ t remove,
     well_keyed (transactionSchemas (this (extendTransaction' t remove w).2)))
  ∧ (∀ fuel schemaKeyRef d,
       well_keyed
         (transactionSchemas
            (this (validateException' fuel schemaKeyRef d w).2))).
Proof.
  intros Hwk. split.
  - intros t remove. rewrite extendTransaction_unfold.
    cbn [snd this transactionSchemas].
    by apply extendTransactionSchema_well_keyed.
  - intros fuel schemaKeyRef d. rewrite validateException_unfold. cbn zeta.
    assert (Hr : well_keyed
                   (registry (tolerant_engine schemas ajvKeywords keywords
                                formats engine fuel (this w)).2))
      by by apply reapply_well_keyed.
    by destruct (tolerant_engine _ _ _ _ _ _ _).1 as [[]| |].
Qed.

Variable block : Schema.
Hypothesis Hblock : schemas !! "block" = Some block.
Hypothesis Hblock_key : schema_key block = "block".

(** X9: after a call of [extendTransaction] that returns, whatever the
    flag, the registry holds the schema passed in under its id, the engine
    holds its signed and strict variants, and its base variant too, under
    the key the engine files the id under, unless that key is "block" or
    "transactions". *)
Theorem extendTransaction_registers (t : TransactionSchema) (remove : bool)
    (w w' : World) :
  extendTransaction' t remove w = (Ok tt, w') →
  (schema_id t, t) ∈ JsMap.entries (transactionSchemas (this w'))
  ∧ store (ajv (this w')) !! (schema_id t +:+ "Signed") = Some (SSigned t)
  ∧ store (ajv (this w')) !! (schema_id t +:+ "Strict") = Some (SStrict t)
  ∧ (Engine.normalizeId (schema_id t) ≠ "block" →
     Engine.normalizeId (schema_id t) ≠ "transactions" →
     store (ajv (this w')) !! Engine.normalizeId (schema_id t) = Some (SBase t)).
Proof.
  intros (s' & Hs' & -> & -> & _)%extendTransaction_ok.
  apply extendTransactionSchema_ok in Hs'
    as (b & Hb & _ & -> & _ & _ & _ & ->).
  rewrite Hblock in Hb. injection Hb as <-.
  split; [apply entries_set|].
  apply (rebuilt_extended_variants block Hblock_key).
Qed.

End RegistrationFacts.
(** ** The loop of the tolerant pass at its edges *)

Section LoopFacts.

Context {Value T : Type}.
Variable schemas : gmap string Schema.
Variables ajvKeywords keywords formats : list string.
Variable engine : Engine.Behaviour.
Variable check : Ajv → SchemaKeyRef → T → T * CheckOutcome Value.
Variable errorsText : list (ErrorObject Value) → string.

Local Abbreviation reapply' := (reapply schemas engine).
Local Abbreviation instantiateAjv' :=
  (instantiateAjv schemas ajvKeywords keywords formats).
Local Abbreviation tolerant_engine' :=
  (tolerant_engine schemas ajvKeywords keywords formats engine).
Local Abbreviation validateException' :=
  (validateException schemas ajvKeywords keywords formats engine check
     errorsText).

Lemma lookup_live_entry {V} (m : JsMap.t V) (j : nat) (k : string) (v : V) :
  m !! j = Some (Some (k, v)) → (k, v) ∈ JsMap.entries m.
Proof.
  intros Hj. unfold JsMap.entries. apply list_elem_of_omap.
  exists (Some (k, v)). split; [|done]. by apply list_elem_of_lookup_2 in Hj.
Qed.

Lemma keys_lookup {V} (m : JsMap.t V) (k : string) :
  k ∈ JsMap.keys m → ∃ j v, m !! j = Some (Some (k, v)).
Proof.
  unfold JsMap.keys, JsMap.entries.
  intros ([k' v] & -> & Hin)%list_elem_of_fmap.
  apply list_elem_of_omap in Hin as (e & He & ->).
  apply list_elem_of_lookup in He as [j Hj]. by exists j, v.
Qed.

Lemma reapply_skips (fuel i : nat) (s : Extending) :
  JsMap.entries (registry s) = [] →
  length (registry s) - i < fuel →
  reapply' fuel i s = (Ok tt, s).
Proof.
  intros Hnone. revert i. induction fuel as [|fuel IH]; intros i Hfuel; [lia|].
  cbn [reapply]. destruct (registry s !! i) as [[[k t]|]|] eqn:Hi; [| |done].
  - apply lookup_live_entry in Hi. rewrite Hnone in Hi.
    by apply elem_of_nil in Hi.
  - apply IH. apply lookup_lt_Some in Hi. lia.
Qed.

(** X10: with no type in the registry (its slots, if any, are those of
    deleted entries), the loop of the tolerant pass adds nothing: the call
    returns the outcome of the check on the engine as [instantiateAjv]
    makes it, without a composite schema of the class's making, and the
    instance is as before. *)
Theorem validateException_nothing_registered (fuel : nat)
    (schemaKeyRef : SchemaKeyRef) (d : T) (w : World) :
  JsMap.entries (transactionSchemas (this w)) = [] →
  length (transactionSchemas (this w)) < fuel →
  validateException' fuel schemaKeyRef d w
  = (Ok (validateSchema check errorsText (instantiateAjv' tolerant_options)
           schemaKeyRef d),
     {| this := this w;
        trace := trace w ++ [EvValidateException schemaKeyRef] |}).
Proof.
  intros Hnone Hfuel.
  rewrite validateException_unfold. unfold tolerant_engine.
  rewrite reapply_skips; [|done|cbn [registry]; lia]. cbn.
  by destruct w as [[a m] tr].
Qed.

Variable block : Schema.
Hypothesis Hblock : schemas !! "block" = Some block.
Hypothesis Hblock_key : schema_key block = "block".

Lemma lookup_delete_other {V} (m : JsMap.t V) (j : nat) (k k0 : string) (v : V) :
  m !! j = Some (Some (k, v)) → k ≠ k0 →
  JsMap.delete k0 m !! j = Some (Some (k, v)).
Proof.
  unfold JsMap.delete, JsMap.t in *. intros Hj Hne.
  etrans; [apply list_lookup_fmap|].
  rewrite Hj. cbn. by rewrite decide_False.
Qed.

Lemma lookup_set_other {V} (m : JsMap.t V) (j : nat) (k k0 : string) (v v0 : V) :
  m !! j = Some (Some (k, v)) → k ≠ k0 →
  JsMap.set k0 v0 m !! j = Some (Some (k, v)).
Proof.
  unfold JsMap.set, JsMap.t in *. intros Hj Hne. destruct (JsMap.has k0 m).
  - etrans; [apply list_lookup_fmap|].
    rewrite Hj. cbn. by rewrite decide_False.
  - by apply lookup_app_l_Some.
Qed.

Lemma lookup_set_delete_last {V} (m : JsMap.t V) (k : string) (v : V) :
  JsMap.set k v (JsMap.delete k m) !! length m = Some (Some (k, v)).
Proof.
  unfold JsMap.set, JsMap.has. rewrite bool_decide_eq_false_2.
  - assert (Hlen : length m = length (JsMap.delete k m))
      by (unfold JsMap.delete; by rewrite length_fmap).
    rewrite Hlen. by apply list_lookup_middle.
  - rewrite keys_delete, list_elem_of_filter. intros [Hne _]. by apply Hne.
Qed.

(** As long as a live entry ahead of the iterator has a key the engine
    holds, the loop does not come to its end. *)
Lemma reapply_never_returns (fuel i : nat) (s : Extending) :
  Forall (λ e, schema_id e.2 = e.1) (JsMap.entries (registry s)) →
  pending_known i s →
  (reapply' fuel i s).1 ≠ Ok tt.
Proof.
  revert i s. induction fuel as [|fuel IH];
    intros i s Hkeyed (j & k & t & Hij & Hj & Hknown); [done|].
  cbn [reapply]. destruct (registry s !! i) as [[[k0 t0]|]|] eqn:Hi.
  - unfold bind.
    destruct (extendTransactionSchema schemas engine t0 false s)
      as [[[]| |] s1] eqn:H1; [|done..].
    assert (Hid : schema_id t0 = k0).
    { rewrite Forall_forall in Hkeyed.
      by apply (Hkeyed (k0, t0)), (lookup_live_entry _ i). }
    pose proof H1 as (b & Hb & _ & Hr & _ & _ & _ & Hst)%extendTransactionSchema_ok.
    rewrite Hblock in Hb. injection Hb as <-.
    assert (Hfound : removes false k0 (target s) = true →
                     Engine.normalizeId k0 = k0).
    { intros Hrm. rewrite <- Hid.
      apply (extendTransactionSchema_ok_found schemas engine t0 false s s1 H1).
      revert Hrm. unfold removes, known. rewrite Hid.
      by destruct (store (target s) !! Engine.normalizeId k0). }
    revert Hr Hst. unfold prepared. cbn [target registry Engine.set_store store].
    rewrite Hid. intros Hr Hst. apply IH.
    + rewrite Hr. apply Forall_entries_set; [done|].
      destruct (removes false k0 (target s)); [|done].
      by apply Forall_entries_delete.
    + destruct (decide (k = k0)) as [->|Hne].
      * assert (Hrm : removes false k0 (target s) = true).
        { unfold removes. by destruct Hknown as [x ->]. }
        rewrite Hrm in Hr. exists (length (registry s)), k0, t0. split_and!.
        -- apply lookup_lt_Some in Hi. lia.
        -- rewrite Hr. apply lookup_set_delete_last.
        -- unfold known. rewrite Hst, <- Hid.
           apply (rebuilt_extended_base block Hblock_key).
      * exists j, k, t. split_and!.
        -- assert (j ≠ i) by (intros ->; congruence). lia.
        -- rewrite Hr. apply lookup_set_other; [|done].
           destruct (removes false k0 (target s)); [|done].
           by apply lookup_delete_other.
        -- unfold known. rewrite Hst, <- Hid.
           apply (rebuilt_extended_cleared_known block Hblock_key);
             [by rewrite Hid|done].
  - apply IH; [done|]. exists j, k, t. split_and!; try done.
    assert (j ≠ i) by (intros ->; congruence). lia.
  - apply lookup_lt_Some in Hj. apply lookup_ge_None in Hi. lia.
Qed.

(** X12: when a registered type has an id that the engine files under the
    key of a schema of the table, [validateException] never returns a
    result: each visit of the entry that does not throw removes it from the
    registry and sets it again at the end, where the iterator meets it once
    more. *)
Theorem validateException_clash_never_returns (fuel : nat)
    (schemaKeyRef : SchemaKeyRef) (d : T) (w : World) (k : string) :
  Forall (λ e, schema_id e.2 = e.1) (JsMap.entries (transactionSchemas (this w))) →
  k ∈ JsMap.keys (transactionSchemas (this w)) →
  is_Some (schemas !! Engine.normalizeId k) →
  ∀ r, (validateException' fuel schemaKeyRef d w).1 ≠ Ok r.
Proof.
  intros Hkeyed [j [t Hj]]%keys_lookup Hk r.
  rewrite validateException_unfold. cbn zeta.
  assert (Hnever : (tolerant_engine' fuel (this w)).1 ≠ Ok tt).
  { apply reapply_never_returns; [done|]. exists j, k, t.
    split_and!; [lia|done|done]. }
  destruct (tolerant_engine' fuel (this w)).1 as [[]| |]; done.
Qed.

(** X14: after a registration that returns, if the registry is separate
    and the loop of the tolerant pass returns, the engine it has built holds
    the same composite "transactions" schema as the default engine: both
    passes check against the same alternatives. *)
Theorem validateException_same_composite (fuel : nat) (t : TransactionSchema)
    (remove : bool) (w w' : World) (s : Extending) :
  extendTransaction schemas engine t remove w = (Ok tt, w') →
  separate schemas (transactionSchemas (this w')) →
  length (transactionSchemas (this w')) < fuel →
  tolerant_engine' fuel (this w') = (Ok tt, s) →
  registry s = transactionSchemas (this w')
  ∧ store (target s) !! "transactions"
    = store (ajv (this w')) !! "transactions"
  ∧ store (target s) !! "transactions"
    = Some (SArray (composite (JsMap.keys (transactionSchemas (this w'))))).
Proof.
  intros Hext Hsep Hfuel Hrun.
  destruct (tolerant_engine_separate schemas ajvKeywords keywords formats
              engine block Hblock Hblock_key fuel (this w') Hsep Hfuel)
    as (o & a & Hrun' & _ & Hok).
  rewrite Hrun in Hrun'. injection Hrun' as <- ->.
  destruct (Hok eq_refl) as (_ & _ & _ & _ & Hcomp).
  apply extendTransaction_ok in Hext as (s' & Hs' & Ha & Hm & _).
  apply extendTransactionSchema_ok in Hs'
    as (b & Hb & Hk & Hr & _ & _ & _ & Hst).
  split; [done|]. cbn [target].
  assert (Hlive : JsMap.entries (transactionSchemas (this w')) ≠ []).
  { rewrite Hm, Hr. unfold prepared. cbn [registry].
    intros Hnil.
    pose proof (entries_set (schema_id t) t
                  (if removes remove (schema_id t) (target (extending (this w)))
                   then JsMap.delete (schema_id t) (registry (extending (this w)))
                   else registry (extending (this w)))) as Hin.
    rewrite Hnil in Hin. by apply elem_of_nil in Hin. }
  rewrite (Hcomp Hlive). split; [|done].
  rewrite Ha, Hst, Hm, Hr. symmetry. by apply rebuilt_lookup_transactions.
Qed.

End LoopFacts.

(** ** [applySchema] and the instance *)

Section InstanceFacts.

Context {Value : Type}.
Variable schemas : gmap string Schema.
Variables ajvKeywords keywords formats : list string.
Variable engine : Engine.Behaviour.
Variable check : Ajv → SchemaKeyRef → IBlockData → IBlockData * CheckOutcome Value.
Variable errorsText : list (ErrorObject Value) → string.
Variable isException : option string → bool.
Variable JSON_stringify : Value → string.
Variable block : Schema.
Hypothesis Hblock : schemas !! "block" = Some block.
Hypothesis Hblock_key : schema_key block = "block".

Local Abbreviation applySchema' :=
  (applySchema schemas ajvKeywords keywords formats engine check errorsText
     isException JSON_stringify).
Local Abbreviation classify_all' := (classify_all isException JSON_stringify).
Local Abbreviation tolerant_engine' :=
  (tolerant_engine schemas ajvKeywords keywords formats engine).

(** [applySchema] by the outcome of the loop of the tolerant pass. *)
Lemma applySchema_unfold (fuel : nat) (d : IBlockData) (w : World) :
  applySchema' fuel d w
  = let '(d1, r1) :=
      validateSchema check errorsText (ajv (this w)) (KeyRef "block") d in
    if truthy (error r1)
    then
      let '(o, s) := tolerant_engine' fuel (this w) in
      match o with
      | Ok _ =>
          let '(d2, r2) :=
            validateSchema check errorsText (target s) (KeyRef "block") d1 in
          match errors r2 with
          | None => (Ok (value r2), after_passes w s)
          | Some errs =>
              (run! classify_all' d2 errs in ret (value r2)) (after_passes w s)
          end
      | Throw e => (Throw e, after_passes w s)
      | Diverge => (Diverge, after_passes w s)
      end
    else (Ok (value r1), logged w (EvValidate (KeyRef "block"))).
Proof.
  destruct (validateSchema check errorsText (ajv (this w)) (KeyRef "block") d)
    as [d1 r1] eqn:Hs.
  destruct (truthy (error r1)) eqn:He.
  - destruct (tolerant_engine' fuel (this w)) as [o s] eqn:Ht.
    destruct o as [[]| |].
    + destruct (validateSchema check errorsText (target s) (KeyRef "block") d1)
        as [d2 r2] eqn:Hv.
      apply (applySchema_tolerant _ _ _ _ _ _ _ _ _ fuel d d1 d2 w r1 r2 s
               Hs He Ht Hv).
    + unfold applySchema, bind at 1. rewrite validate_unfold, Hs, He.
      cbn [negb]. unfold bind at 1. rewrite validateException_unfold.
      cbn [this trace]. rewrite Ht. cbn. unfold after_passes.
      by rewrite <- (assoc_L (++)).
    + unfold applySchema, bind at 1. rewrite validate_unfold, Hs, He.
      cbn [negb]. unfold bind at 1. rewrite validateException_unfold.
      cbn [this trace]. rewrite Ht. cbn. unfold after_passes.
      by rewrite <- (assoc_L (++)).
  - apply (applySchema_strict _ _ _ _ _ _ _ _ _ fuel d d1 w r1 Hs He).
Qed.

(** X13: [applySchema] never changes the default engine of the instance,
    whatever its outcome.  When the registry is separate and the loop of
    the tolerant pass has the fuel to visit its slots, the call ends (it
    returns or throws) and leaves the whole instance as it was. *)
Theorem applySchema_instance (fuel : nat) (d : IBlockData) (w : World) :
  ajv (this (applySchema' fuel d w).2) = ajv (this w)
  ∧ (separate schemas (transactionSchemas (this w)) →
     length (transactionSchemas (this w)) < fuel →
     (applySchema' fuel d w).1 ≠ Diverge
     ∧ this (applySchema' fuel d w).2 = this w).
Proof.
  rewrite applySchema_unfold.
  destruct (validateSchema check errorsText (ajv (this w)) (KeyRef "block") d)
    as [d1 r1].
  destruct (truthy (error r1)); [|done].
  split.
  - destruct (tolerant_engine' fuel (this w)) as [[[]| |] s]; [|done..].
    destruct (validateSchema check errorsText (target s) (KeyRef "block") d1)
      as [d2 r2].
    destruct (errors r2) as [errs|]; [|done]. unfold bind.
    destruct (classify_all_this isException JSON_stringify d2 errs
                (after_passes w s)) as [_ Hthis].
    destruct (classify_all' d2 errs (after_passes w s)) as [[[]| |] w3];
      cbn [snd ret] in *; by rewrite Hthis.
  - intros Hsep Hfuel.
    destruct (tolerant_engine_separate schemas ajvKeywords keywords formats
                engine block Hblock Hblock_key fuel (this w) Hsep Hfuel)
      as (o & a & -> & Hend & _).
    assert (Hsame : this (after_passes w {| target := a;
                                            registry := transactionSchemas (this w) |})
                    = this w) by by destruct w as [[a0 m0] tr].
    destruct o as [[]|e|]; [|done..].
    destruct (validateSchema check errorsText _ (KeyRef "block") d1) as [d2 r2].
    destruct (errors r2) as [errs|]; [|done]. unfold bind.
    destruct (classify_all_this isException JSON_stringify d2 errs
                (after_passes w {| target := a;
                                   registry := transactionSchemas (this w) |}))
      as [Hdiv Hthis].
    destruct (classify_all' d2 errs _) as [[[]| |] w3];
      cbn [fst snd ret] in *; by rewrite ?Hthis.
Qed.

End InstanceFacts.

(** ** The result of a check *)

Section ResultFacts.

Context {Value T : Type}.
Variable check : Ajv → SchemaKeyRef → T → T * CheckOutcome Value.
Variable errorsText : list (ErrorObject Value) → string.

(** X1: [validate] hands the data back as value whenever the engine's
    check did not throw, also when the check found errors; the value is
    absent exactly when the check threw, and the list of errors is absent
    exactly when the check found none. *)
Theorem validate_value (schemaKeyRef : SchemaKeyRef) (d : T) (w : World) :
  ∃ r,
    (validate check errorsText schemaKeyRef d w).1
    = Ok ((check (ajv (this w)) schemaKeyRef d).1, r)
    ∧ (value r = None ↔
       ∃ stack, (check (ajv (this w)) schemaKeyRef d).2 = Thrown stack)
    ∧ (errors r = None ↔
       (check (ajv (this w)) schemaKeyRef d).2 = Checked None)
    ∧ ∀ errs,
        (check (ajv (this w)) schemaKeyRef d).2 = Checked (Some errs) →
        value r = Some (check (ajv (this w)) schemaKeyRef d).1
        ∧ error r = Some (errorsText errs)
        ∧ errors r = Some errs.
Proof.
  rewrite validate_unfold. unfold validateSchema.
  destruct (check (ajv (this w)) schemaKeyRef d) as [d' [stack|[errs|]]];
    eexists; (split; [reflexivity|]); cbn; split_and!; try done.
  - split; [by exists stack|done].
  - split; [done|]. by intros [stack ?].
  - by intros errs' [= <-].
  - split; [done|]. by intros [stack ?].
Qed.

End ResultFacts.
(** ** The edges on instances *)

Section EdgeFacts.

Import Scenario.

Lemma applySchema_tolerant_clean_scenario :
  run (Checked (Some [at_block])) (Checked None) [] (record (Some [bad]))
  = (Ok (Some (record (Some [bad]))), after_passes registered tolerant).
Proof.
  refine (applySchema_tolerant_clean Scenario.schemas ajvKeywords keywords
            formats Scenario.engine (check (Checked (Some [at_block])) (Checked None))
            Scenario.errorsText (exempt []) Scenario.JSON_stringify 2
            (record (Some [bad])) (record (Some [bad])) (record (Some [bad]))
            registered
            {| value := Some (record (Some [bad]));
               error := Some "data.numberOfTransactions should be integer";
               errors := Some [at_block] |}
            {| value := Some (record (Some [bad])); error := None; errors := None |}
            tolerant _ _ _ _ _);
    vm_compute; reflexivity.
Defined.

Lemma applySchema_all_tolerated_scenario :
  run (Checked (Some [at_transaction; at_block]))
    (Checked (Some [at_transaction; at_block])) ["bad"; "b5"]
    (record (Some [bad]))
  = (Ok (Some (record (Some [bad]))),
     recorded (after_passes registered tolerant)
       [EvIsException (Some "bad"); EvIsException (Some "b5")]).
Proof.
  refine (applySchema_all_tolerated Scenario.schemas ajvKeywords keywords
            formats Scenario.engine
            (check (Checked (Some [at_transaction; at_block]))
               (Checked (Some [at_transaction; at_block])))
            Scenario.errorsText (exempt ["bad"; "b5"]) Scenario.JSON_stringify 2
            (record (Some [bad])) (record (Some [bad])) (record (Some [bad]))
            registered
            {| value := Some (record (Some [bad]));
               error := Some "data.transactions[0].amount should be >= 1, data.numberOfTransactions should be integer";
               errors := Some [at_transaction; at_block] |}
            {| value := Some (record (Some [bad]));
               error := Some "data.transactions[0].amount should be >= 1, data.numberOfTransactions should be integer";
               errors := Some [at_transaction; at_block] |}
            tolerant [at_transaction; at_block] _ _ _ _ _ _);
    try (vm_compute; reflexivity).
  repeat constructor.
Defined.

Lemma applySchema_failure_origin_scenario :
  ∃ pre err post,
    [at_transaction; at_block] = pre ++ err :: post
    ∧ verdict (exempt ["bad"]) (record (Some [bad])) err = Fatal
    ∧ 5%Z = height (record (Some [bad])).
Proof.
  destruct (applySchema_failure_origin Scenario.schemas ajvKeywords keywords
              formats Scenario.engine
              (check (Checked (Some [at_transaction; at_block]))
                 (Checked (Some [at_transaction; at_block])))
              Scenario.errorsText (exempt ["bad"]) Scenario.JSON_stringify 2
              (record (Some [bad])) registered
              (recorded (after_passes registered tolerant)
                 [EvIsException (Some "bad"); EvIsException (Some "b5")])
              5 "Invalid data at .numberOfTransactions: should be integer: 1.5"
              ltac:(vm_compute; reflexivity))
    as (_ & _ & pre & err & post & Herrs & _ & Hfatal & Hh & _).
  exists pre, err, post.
  split_and!; [exact (inj Some _ _ Herrs) | exact Hfatal | exact Hh].
Defined.

Lemma fresh_well_keyed : well_keyed (transactionSchemas (this fresh)).
Proof. split; [constructor | apply NoDup_nil_2]. Qed.

Lemma registry_well_keyed_scenario :
  well_keyed (transactionSchemas (this registered))
  ∧ well_keyed
      (transactionSchemas
         (this (validateException Scenario.schemas ajvKeywords keywords formats Scenario.engine
                  (check (Checked None) (Checked None)) Scenario.errorsText
                  2 (KeyRef "block") (record None) fresh).2)).
Proof.
  destruct (registry_well_keyed Scenario.schemas ajvKeywords keywords formats Scenario.engine
              (check (Checked None) (Checked None)) Scenario.errorsText
              fresh fresh_well_keyed) as [Hext Hval].
  split; [exact (Hext transfer false) | exact (Hval 2 (KeyRef "block") (record None))].
Defined.

Lemma extendTransaction_variant_clash_scenario :
  (register transfer' false Edge.unbased).1
  = Throw (Engine.already_exists "transferSigned")
  ∧ (register transfer' false Edge.unsigned).1
    = Throw (Engine.already_exists "transferStrict").
Proof.
  split.
  - destruct (extendTransaction_variant_clash Scenario.schemas Scenario.engine
                transfer' Edge.unbased ltac:(vm_compute; reflexivity)
                ltac:(vm_compute; reflexivity)) as [Hsigned _].
    exact (f_equal fst (Hsigned ltac:(vm_compute; eexists; reflexivity))).
  - destruct (extendTransaction_variant_clash Scenario.schemas Scenario.engine
                transfer' Edge.unsigned ltac:(vm_compute; reflexivity)
                ltac:(vm_compute; reflexivity)) as [_ Hstrict].
    exact (f_equal fst (Hstrict ltac:(vm_compute; reflexivity)
                          ltac:(vm_compute; reflexivity)
                          ltac:(vm_compute; eexists; reflexivity))).
Defined.

Lemma extendTransaction_lookup_throws_scenario :
  extendTransaction Scenario.schemas Edge.unresolved transfer' true registered
  = (Throw (EngineError "can't resolve reference base from id #"), registered).
Proof.
  apply (extendTransaction_lookup_throws Scenario.schemas Edge.unresolved
           transfer' true registered).
  vm_compute; reflexivity.
Defined.

Lemma extendTransaction_rejected_scenario :
  (register Edge.malformed false fresh).1
  = Throw (EngineError "schema is invalid: data.type should be equal to one of the allowed values")
  ∧ JsMap.keys (transactionSchemas (this (register Edge.malformed false fresh).2))
    = ["malformed"]
  ∧ ajv (this (register Edge.malformed false fresh).2) = ajv (this fresh).
Proof.
  pose proof (extendTransaction_rejected Scenario.schemas Scenario.engine
                Edge.malformed fresh
                "schema is invalid: data.type should be equal to one of the allowed values"
                ltac:(vm_compute; reflexivity) ltac:(vm_compute; reflexivity))
    as Hrun.
  unfold register. rewrite Hrun. split_and!; reflexivity.
Defined.

Lemma extendTransaction_registers_scenario :
  (schema_id transfer, transfer) ∈ JsMap.entries (transactionSchemas (this registered))
  ∧ store (ajv (this registered)) !! "transferSigned" = Some (SSigned transfer)
  ∧ store (ajv (this registered)) !! "transfer" = Some (SBase transfer).
Proof.
  destruct (extendTransaction_registers Scenario.schemas Scenario.engine
              (SOther "block" "blockHeader & transactions") schemas_block eq_refl
              transfer false fresh registered ltac:(vm_compute; reflexivity))
    as (Hentry & Hsigned & _ & Hbase).
  split_and!; [exact Hentry | exact Hsigned |].
  apply Hbase; discriminate.
Defined.

Lemma validateException_nothing_registered_scenario :
  validateException Scenario.schemas ajvKeywords keywords formats
    Scenario.engine (check (Checked None) (Thrown None)) Scenario.errorsText
    1 (KeyRef "block") (record None) fresh
  = (Ok (record None,
         {| value := None; error := None; errors := Some [] |}),
     {| this := this fresh; trace := [EvValidateException (KeyRef "block")] |}).
Proof.
  exact (validateException_nothing_registered Scenario.schemas ajvKeywords
           keywords formats Scenario.engine
           (check (Checked None) (Thrown None))
           Scenario.errorsText 1 (KeyRef "block") (record None) fresh
           eq_refl ltac:(vm_compute; lia)).
Defined.

Lemma clashing_keyed :
  Forall (λ e, schema_id e.2 = e.1)
    (JsMap.entries (transactionSchemas (this Edge.clashing))).
Proof. vm_compute. by repeat constructor. Qed.

Lemma validateException_clash_never_returns_scenario :
  Forall (λ fuel,
            ∀ r, (validateException Scenario.schemas ajvKeywords keywords formats Scenario.engine
                    (check (Checked None) (Checked None)) Scenario.errorsText
                    fuel (KeyRef "block") (record None) Edge.clashing).1
                 ≠ Ok r)
    [1; 8; 64].
Proof.
  assert (Hnever : ∀ fuel r,
            (validateException Scenario.schemas ajvKeywords keywords formats Scenario.engine
               (check (Checked None) (Checked None)) Scenario.errorsText
               fuel (KeyRef "block") (record None) Edge.clashing).1
            ≠ Ok r).
  { intros fuel.
    apply (validateException_clash_never_returns Scenario.schemas ajvKeywords
             keywords formats Scenario.engine (check (Checked None) (Checked None))
             Scenario.errorsText (SOther "block" "blockHeader & transactions")
             schemas_block eq_refl fuel (KeyRef "block") (record None)
             Edge.clashing "hex" clashing_keyed).
    - vm_compute. left.
    - vm_compute. eexists. reflexivity. }
  repeat (apply Forall_cons_2; [apply Hnever|]). apply Forall_nil_2.
Defined.

Lemma applySchema_instance_scenario :
  this (run (Checked (Some [at_transaction])) (Checked (Some [at_transaction]))
          [] (record (Some [bad]))).2
  = this registered.
Proof.
  destruct (applySchema_instance Scenario.schemas ajvKeywords keywords formats Scenario.engine
              (check (Checked (Some [at_transaction])) (Checked (Some [at_transaction])))
              Scenario.errorsText (exempt []) Scenario.JSON_stringify
              (SOther "block" "blockHeader & transactions") schemas_block eq_refl
              2 (record (Some [bad])) registered) as [_ Hsep].
  destruct (Hsep registered_separate ltac:(vm_compute; lia)) as [_ Hthis].
  exact Hthis.
Defined.

Lemma validateException_same_composite_scenario :
  store (target tolerant) !! "transactions"
  = store (ajv (this registered)) !! "transactions".
Proof.
  destruct (validateException_same_composite Scenario.schemas ajvKeywords
              keywords formats Scenario.engine
              (SOther "block" "blockHeader & transactions")
              schemas_block eq_refl 2 transfer false fresh registered tolerant
              ltac:(vm_compute; reflexivity) registered_separate
              ltac:(vm_compute; lia) ltac:(vm_compute; reflexivity))
    as (_ & Hsame & _).
  exact Hsame.
Defined.

Lemma applySchema_stackless_throw_scenario :
  run (Thrown None) (Checked (Some [at_transaction])) [] (record (Some [bad]))
  = (Ok None, logged registered (EvValidate (KeyRef "block"))).
Proof.
  refine (applySchema_stackless_throw Scenario.schemas ajvKeywords keywords
            formats Scenario.engine
            (check (Thrown None) (Checked (Some [at_transaction])))
            Scenario.errorsText (exempt []) Scenario.JSON_stringify 2
            (record (Some [bad])) (record (Some [bad])) registered _).
  vm_compute; reflexivity.
Defined.

End EdgeFacts.
